(** * exec_command: a shallow embedding of src/Sources/CShim/exec_command.c

    The C file spawns a child process: the parent creates a sync pipe, blocks
    all signals, forks, and waits on the pipe; the child closes the read end,
    resets its signals, renumbers its descriptors, applies the process
    attributes and calls execve, reporting any failure as 4 raw errno bytes
    on the pipe.

    The operating system is modelled as a record [proc] holding the process
    state the code touches (descriptor table, errno, signal mask, identity).
    Descriptor operations (dup2, close, fcntl, write, pipe) are computed
    from the descriptor table the way the kernel does it; the outcome of
    the calls whose result depends on the rest of the system (fork, setsid,
    setgid, chdir, execve, ...) is an input ([kernel] / [parent_kernel]). *)

From Stdlib Require Import ZArith Lia.
From stdpp Require Import base gmap list strings.

Open Scope Z_scope.

(** ** Process state *)

(** An open file description: its identity and whether it was opened for
    writing (write(2) on a read-only description fails with EBADF). *)
Record resource := mkResource { res_id : nat; res_writable : bool }.

(** One slot of the descriptor table: what it refers to, and FD_CLOEXEC. *)
Record fd_entry := mkFd { fd_res : resource; fd_cloexec : bool }.

Global Instance resource_eq_dec : EqDecision resource.
Proof. solve_decision. Defined.
Global Instance fd_entry_eq_dec : EqDecision fd_entry.
Proof. solve_decision. Defined.

Record proc := mkProc {
  fds : gmap nat fd_entry;     (** open descriptors *)
  nofile : nat;                (** RLIMIT_NOFILE soft limit (rlim_cur) *)
  errno : Z;
  sigmask : Z;                 (** blocked signals, one bit per signal *)
  sig_default : bool;          (** all dispositions reset to SIG_DFL *)
  heap_fd_table : bool;        (** the child's calloc'd fd_table is live *)
  sid_leader : bool;
  proc_pgid : option Z;        (** set by setpgid(0, pgid) *)
  proc_ctty : option nat;      (** set by ioctl(fd, TIOCSCTTY, 0) *)
  proc_uid : Z;
  proc_gid : Z;
  proc_cwd : option string;    (** set by chdir *)
  next_res : nat;              (** fresh identities for new pipes *)
  written : list (nat * Z);    (** 4-byte writes, per resource identity *)
  reaped : list Z              (** pids collected by waitpid *)
}.

Definition set_fds (f : gmap nat fd_entry) (s : proc) : proc :=
  mkProc f (nofile s) (errno s) (sigmask s) (sig_default s) (heap_fd_table s)
    (sid_leader s) (proc_pgid s) (proc_ctty s) (proc_uid s) (proc_gid s)
    (proc_cwd s) (next_res s) (written s) (reaped s).
Definition set_errno (e : Z) (s : proc) : proc :=
  mkProc (fds s) (nofile s) e (sigmask s) (sig_default s) (heap_fd_table s)
    (sid_leader s) (proc_pgid s) (proc_ctty s) (proc_uid s) (proc_gid s)
    (proc_cwd s) (next_res s) (written s) (reaped s).
Definition set_sigmask (m : Z) (s : proc) : proc :=
  mkProc (fds s) (nofile s) (errno s) m (sig_default s) (heap_fd_table s)
    (sid_leader s) (proc_pgid s) (proc_ctty s) (proc_uid s) (proc_gid s)
    (proc_cwd s) (next_res s) (written s) (reaped s).
Definition set_sig_default (s : proc) : proc :=
  mkProc (fds s) (nofile s) (errno s) (sigmask s) true (heap_fd_table s)
    (sid_leader s) (proc_pgid s) (proc_ctty s) (proc_uid s) (proc_gid s)
    (proc_cwd s) (next_res s) (written s) (reaped s).
Definition set_heap (b : bool) (s : proc) : proc :=
  mkProc (fds s) (nofile s) (errno s) (sigmask s) (sig_default s) b
    (sid_leader s) (proc_pgid s) (proc_ctty s) (proc_uid s) (proc_gid s)
    (proc_cwd s) (next_res s) (written s) (reaped s).
Definition set_sid_leader (s : proc) : proc :=
  mkProc (fds s) (nofile s) (errno s) (sigmask s) (sig_default s)
    (heap_fd_table s) true (proc_pgid s) (proc_ctty s) (proc_uid s)
    (proc_gid s) (proc_cwd s) (next_res s) (written s) (reaped s).
Definition set_pgid (g : Z) (s : proc) : proc :=
  mkProc (fds s) (nofile s) (errno s) (sigmask s) (sig_default s)
    (heap_fd_table s) (sid_leader s) (Some g) (proc_ctty s) (proc_uid s)
    (proc_gid s) (proc_cwd s) (next_res s) (written s) (reaped s).
Definition set_ctty (fd : nat) (s : proc) : proc :=
  mkProc (fds s) (nofile s) (errno s) (sigmask s) (sig_default s)
    (heap_fd_table s) (sid_leader s) (proc_pgid s) (Some fd) (proc_uid s)
    (proc_gid s) (proc_cwd s) (next_res s) (written s) (reaped s).
Definition set_uid (u : Z) (s : proc) : proc :=
  mkProc (fds s) (nofile s) (errno s) (sigmask s) (sig_default s)
    (heap_fd_table s) (sid_leader s) (proc_pgid s) (proc_ctty s) u
    (proc_gid s) (proc_cwd s) (next_res s) (written s) (reaped s).
Definition set_gid (g : Z) (s : proc) : proc :=
  mkProc (fds s) (nofile s) (errno s) (sigmask s) (sig_default s)
    (heap_fd_table s) (sid_leader s) (proc_pgid s) (proc_ctty s) (proc_uid s)
    g (proc_cwd s) (next_res s) (written s) (reaped s).
Definition set_cwd (d : string) (s : proc) : proc :=
  mkProc (fds s) (nofile s) (errno s) (sigmask s) (sig_default s)
    (heap_fd_table s) (sid_leader s) (proc_pgid s) (proc_ctty s) (proc_uid s)
    (proc_gid s) (Some d) (next_res s) (written s) (reaped s).
Definition set_next_res (n : nat) (s : proc) : proc :=
  mkProc (fds s) (nofile s) (errno s) (sigmask s) (sig_default s)
    (heap_fd_table s) (sid_leader s) (proc_pgid s) (proc_ctty s) (proc_uid s)
    (proc_gid s) (proc_cwd s) n (written s) (reaped s).
Definition add_written (w : nat * Z) (s : proc) : proc :=
  mkProc (fds s) (nofile s) (errno s) (sigmask s) (sig_default s)
    (heap_fd_table s) (sid_leader s) (proc_pgid s) (proc_ctty s) (proc_uid s)
    (proc_gid s) (proc_cwd s) (next_res s) (w :: written s) (reaped s).
Definition add_reaped (pid : Z) (s : proc) : proc :=
  mkProc (fds s) (nofile s) (errno s) (sigmask s) (sig_default s)
    (heap_fd_table s) (sid_leader s) (proc_pgid s) (proc_ctty s) (proc_uid s)
    (proc_gid s) (proc_cwd s) (next_res s) (written s) (pid :: reaped s).

(** errno values (Linux) *)
Definition ENOENT : Z := 2.
Definition EBADF : Z := 9.
Definition EAGAIN : Z := 11.
Definition ENOMEM : Z := 12.
Definition EMFILE : Z := 24.

(** sigemptyset / sigfillset on glibc's 1024-bit sigset_t *)
Definition sigemptyset : Z := 0.
Definition sigfillset : Z := Z.ones 1024.

(** ** System calls returning -1 and setting errno: a state/error monad *)

Inductive res (A : Type) : Type :=
| Ok (st : proc) (a : A)
| Fail (st : proc).
Arguments Ok {A} st a.
Arguments Fail {A} st.

Definition M (A : Type) : Type := proc -> res A.

Global Instance M_ret : MRet M := fun A a st => Ok st a.
Global Instance M_bind : MBind M := fun A B k m st =>
  match m st with
  | Ok st' a => k a st'
  | Fail st' => Fail st'
  end.

(** a call that fails with errno [e] *)
Definition fail_with {A} (e : Z) : M A := fun st => Fail (set_errno e st).

(** close(fd) *)
Definition sys_close (fd : nat) : M unit := fun st =>
  match fds st !! fd with
  | Some _ => Ok (set_fds (delete fd (fds st)) st) tt
  | None => Fail (set_errno EBADF st)
  end.

(** dup2(oldfd, newfd): EBADF when oldfd is not open or newfd is beyond
    RLIMIT_NOFILE; when the two are equal nothing changes; otherwise newfd
    is (silently closed and) made to refer to oldfd's description, with
    FD_CLOEXEC cleared. *)
Definition dup2 (oldfd newfd : nat) : M unit := fun st =>
  match fds st !! oldfd with
  | None => Fail (set_errno EBADF st)
  | Some e =>
      if decide (newfd < nofile st)%nat then
        if decide (oldfd = newfd) then Ok st tt
        else Ok (set_fds (<[newfd := mkFd (fd_res e) false]> (fds st)) st) tt
      else Fail (set_errno EBADF st)
  end.

(** fcntl(fd, F_SETFD, flags): set or clear FD_CLOEXEC *)
Definition fcntl_setfd (fd : nat) (cloexec : bool) : M unit := fun st =>
  match fds st !! fd with
  | Some e => Ok (set_fds (<[fd := mkFd (fd_res e) cloexec]> (fds st)) st) tt
  | None => Fail (set_errno EBADF st)
  end.

(** write(fd, &err, 4): a 4-byte write to a pipe is atomic *)
Definition sys_write (fd : nat) (v : Z) : M Z := fun st =>
  match fds st !! fd with
  | Some e =>
      if res_writable (fd_res e) then Ok (add_written (res_id (fd_res e), v) st) 4
      else Fail (set_errno EBADF st)
  | None => Fail (set_errno EBADF st)
  end.

(** lowest free descriptor number below the limit *)
Fixpoint find_free (f : gmap nat fd_entry) (fuel i : nat) : option nat :=
  match fuel with
  | O => None
  | S fuel' => match f !! i with
               | None => Some i
               | Some _ => find_free f fuel' (S i)
               end
  end.

(** pipe(sync_pipe): the two lowest free descriptors, read end first;
    EMFILE when the table is full. *)
Definition sys_pipe : M (nat * nat) := fun st =>
  let r := mkResource (next_res st) false in
  let w := mkResource (next_res st) true in
  match find_free (fds st) (nofile st) 0 with
  | None => Fail (set_errno EMFILE st)
  | Some p0 =>
      let f1 := <[p0 := mkFd r false]> (fds st) in
      match find_free f1 (nofile st) 0 with
      | None => Fail (set_errno EMFILE st)
      | Some p1 =>
          Ok (set_next_res (S (next_res st))
                (set_fds (<[p1 := mkFd w false]> f1) st)) (p0, p1)
      end
  end.

(** ** struct exec_command_attrs and exec_command_attrs_init (lines 35-44) *)

(** uid_t and gid_t are 32-bit unsigned: the -1 stored in them wraps. *)
Definition to_id_t (z : Z) : Z := z mod 2 ^ 32.

Record exec_command_attrs := mkAttrs {
  setpgid : Z; pgid : Z; setctty : Z; ctty : Z; setsid : Z;
  uid : Z; gid : Z; mask : Z
}.

Definition exec_command_attrs_init : exec_command_attrs :=
  {| setpgid := 0; pgid := 0; setsid := 0; setctty := 0; ctty := 0;
     mask := 0; uid := to_id_t (-1); gid := to_id_t (-1) |}.

(** ** The child: child_handler (lines 46-249) *)

(** Outcome of the system calls whose result the descriptor table does not
    decide: [None] is success, [Some e] is failure with errno [e]. For
    execve, [None] means the program image was replaced. *)
Record kernel := mkKernel {
  k_calloc_ok : bool;
  k_setsid : option Z;
  k_setpgid : option Z;
  k_tiocsctty : option Z;
  k_setgid : option Z;
  k_setreuid : option Z;
  k_chdir : option Z;
  k_execve : option Z
}.

Definition sys_outcome (o : option Z) (upd : proc -> proc) : M unit := fun st =>
  match o with
  | None => Ok (upd st) tt
  | Some e => Fail (set_errno e st)
  end.

(** The child's failure path reads its local [syncfd], which the shuffle
    updates: the child code runs in a monad that also carries it. *)
Inductive cres (A : Type) : Type :=
| COk (st : proc) (syncfd : nat) (a : A)
| CFail (st : proc) (syncfd : nat).
Arguments COk {A} st syncfd a.
Arguments CFail {A} st syncfd.

Definition CM (A : Type) : Type := nat -> proc -> cres A.

Global Instance CM_ret : MRet CM := fun A a sfd st => COk st sfd a.
Global Instance CM_bind : MBind CM := fun A B k m sfd st =>
  match m sfd st with
  | COk st' sfd' a => k a sfd' st'
  | CFail st' sfd' => CFail st' sfd'
  end.

Definition lift {A} (m : M A) : CM A := fun sfd st =>
  match m st with
  | Ok st' a => COk st' sfd a
  | Fail st' => CFail st' sfd
  end.
Definition get_syncfd : CM nat := fun sfd st => COk st sfd sfd.
Definition put_syncfd (n : nat) : CM unit := fun _ st => COk st n tt.

(** the highest descriptor in the list, starting from fd_index = 0
    (lines 134-139) *)
Fixpoint max_fd_from (fd_index : nat) (l : list nat) : nat :=
  match l with
  | [] => fd_index
  | h :: t => max_fd_from (if (fd_index <? h)%nat then h else fd_index) t
  end.
Definition max_fd (file_handles : list nat) : nat := max_fd_from 0 file_handles.

(** lines 144-152: move the sync descriptor to fd_index unless it is there *)
Definition relocate_sync (syncfd fd_index : nat) : M nat :=
  if decide (syncfd = fd_index) then mret syncfd
  else dup2 syncfd fd_index;; sys_close syncfd;; mret fd_index.

(** lines 161-173: every entry with fd_table[i] != i is copied to the next
    free slot fd_index (marked FD_CLOEXEC) and fd_table[i] updated. The
    loop reads and writes fd_table[i] only at iteration i, so the array
    is threaded as the list of entries still to visit and the list of
    updated entries returned. *)
Fixpoint move_up (i : nat) (fd_table : list nat) (fd_index : nat)
  : M (list nat * nat) :=
  match fd_table with
  | [] => mret ([], fd_index)
  | v :: rest =>
      if decide (v = i) then
        '(rest', idx) ← move_up (S i) rest fd_index; mret (v :: rest', idx)
      else
        dup2 v fd_index;;
        fcntl_setfd fd_index true;;
        '(rest', idx) ← move_up (S i) rest (S fd_index);
        mret (fd_index :: rest', idx)
  end.

(** lines 176-187: dup2 fd_table[i] onto i when they differ, then clear
    FD_CLOEXEC on i *)
Fixpoint place (i : nat) (fd_table : list nat) : M unit :=
  match fd_table with
  | [] => mret tt
  | v :: rest =>
      (if decide (v = i) then mret tt else dup2 v i);;
      fcntl_setfd i false;;
      place (S i) rest
  end.

(** lines 133-158: returns the next fd_index *)
Definition protect_sync (file_handles : list nat) : CM nat :=
  let fd_index := S (max_fd file_handles) in
  syncfd ← get_syncfd;
  syncfd' ← lift (relocate_sync syncfd fd_index);
  put_syncfd syncfd';;
  lift (fcntl_setfd syncfd' true);;
  mret (S fd_index).

(** lines 133-187 *)
Definition shuffle_fds (file_handles : list nat) : CM unit :=
  fd_index ← protect_sync file_handles;
  '(fd_table, _) ← lift (move_up 0 file_handles fd_index);
  lift (place 0 fd_table).

(** lines 206-215: getrlimit, then FD_CLOEXEC on every descriptor from
    file_handle_count to rlim_cur; EBADF (not open) is tolerated. *)
Definition getrlimit_nofile : M nat := fun st => Ok st (nofile st).

Definition fcntl_cloexec_or_ebadf (fd : nat) : M unit := fun st =>
  match fcntl_setfd fd true st with
  | Ok st' a => Ok st' a
  | Fail st' => if decide (errno st' = EBADF) then Ok st' tt else Fail st'
  end.

Fixpoint cloexec_from (count i : nat) : M unit :=
  match count with
  | O => mret tt
  | S c => fcntl_cloexec_or_ebadf i;; cloexec_from c (S i)
  end.

Definition cloexec_above (file_handle_count : nat) : M unit :=
  rlim_cur ← getrlimit_nofile;
  cloexec_from (S rlim_cur - file_handle_count) file_handle_count.

Inductive child_outcome : Type :=
| ChildExec (st : proc)                 (** execve replaced the image *)
| ChildExit (status : Z) (st : proc)    (** exit(status) *)
| ChildSpinning.                        (** still retrying the write *)

(** lines 245-246: while (write(syncfd, &err, 4) < 0); -- [fuel] bounds
    the number of attempts observed, [None] when all of them failed. *)
Fixpoint write_retry (fuel : nat) (fd : nat) (v : Z) (st : proc) : option proc :=
  match fuel with
  | O => None
  | S fuel' =>
      match sys_write fd v st with
      | Ok st' n => if decide (n < 0) then write_retry fuel' fd v st' else Some st'
      | Fail st' => write_retry fuel' fd v st'
      end
  end.

(** lines 238-248: the fail label *)
Definition fail_handler (fuel : nat) (syncfd : nat) (st : proc) : child_outcome :=
  let st1 := if heap_fd_table st then set_heap false st else st in
  let err := errno st1 in
  if decide (err <> 0) then
    match write_retry fuel syncfd err st1 with
    | Some st2 => ChildExit 127 st2
    | None => ChildSpinning
    end
  else ChildExit 127 st1.

Section Child.
Variable k : kernel.

(** lines 59-64 *)
Definition alloc_fd_table (file_handle_count : nat) : M unit := fun st =>
  if (0 <? file_handle_count)%nat then
    if k_calloc_ok k then Ok (set_heap true st) tt else Fail (set_errno ENOMEM st)
  else Ok st tt.

(** lines 66-83: sigaction(i, SIG_DFL) for every signal ignores failures;
    pthread_sigmask returns an error number, never a negative value, so
    the [< 0] test never jumps. *)
Definition reset_sig_handlers : M unit := fun st => Ok (set_sig_default st) tt.
Definition set_thread_sigmask (m : Z) : M unit := fun st => Ok (set_sigmask m st) tt.

Definition child_prologue (sync_read : nat) (file_handle_count : nat) : M unit :=
  alloc_fd_table file_handle_count;;
  sys_close sync_read;;
  reset_sig_handlers;;
  set_thread_sigmask sigemptyset.

Definition ioctl_tiocsctty (fd : Z) : M unit := fun st =>
  if decide (0 <= fd) then
    match fds st !! Z.to_nat fd with
    | Some _ => sys_outcome (k_tiocsctty k) (set_ctty (Z.to_nat fd)) st
    | None => Fail (set_errno EBADF st)
    end
  else Fail (set_errno EBADF st).

(** lines 189-204 *)
Definition session_steps (attrs : exec_command_attrs) : M unit :=
  (if decide (setsid attrs <> 0) then sys_outcome (k_setsid k) set_sid_leader
   else mret tt);;
  (if decide (setpgid attrs <> 0) then sys_outcome (k_setpgid k) (set_pgid (pgid attrs))
   else mret tt);;
  (if decide (setctty attrs <> 0) then ioctl_tiocsctty (ctty attrs) else mret tt).

(** lines 217-235: [attrs.gid != -1] compares in gid_t *)
Definition identity_steps (attrs : exec_command_attrs) (cwd : option string) : M unit :=
  (if decide (gid attrs <> to_id_t (-1)) then sys_outcome (k_setgid k) (set_gid (gid attrs))
   else mret tt);;
  (if decide (uid attrs <> to_id_t (-1)) then sys_outcome (k_setreuid k) (set_uid (uid attrs))
   else mret tt);;
  match cwd with
  | Some d => sys_outcome (k_chdir k) (set_cwd d)
  | None => mret tt
  end.

(** line 237 *)
Definition sys_execve (executable : string) (args environment : list string) : M unit :=
  sys_outcome (k_execve k) id.

(** lines 133-215: the renumbering phase, up to the FD_CLOEXEC sweep *)
Definition renumbering_phase (file_handles : list nat) (attrs : exec_command_attrs)
  : CM unit :=
  shuffle_fds file_handles;;
  lift (session_steps attrs);;
  lift (cloexec_above (length file_handles)).

Definition child_body (sync_pipes : nat * nat) (executable : string)
    (args environment : list string) (file_handles : list nat)
    (cwd : option string) (attrs : exec_command_attrs) : CM unit :=
  lift (child_prologue (fst sync_pipes) (length file_handles));;
  renumbering_phase file_handles attrs;;
  lift (identity_steps attrs cwd);;
  lift (sys_execve executable args environment).

Definition child_handler (fuel : nat) (sync_pipes : nat * nat) (executable : string)
    (args environment : list string) (file_handles : list nat)
    (cwd : option string) (old_mask : Z) (attrs : exec_command_attrs)
    (st : proc) : child_outcome :=
  match child_body sync_pipes executable args environment file_handles cwd attrs
          (snd sync_pipes) st with
  | COk st' _ _ => ChildExec st'
  | CFail st' syncfd => fail_handler fuel syncfd st'
  end.

End Child.

(** ** The parent: exec_command (lines 251-325) *)

Inductive fork_result : Type :=
| ForkFailed (e : Z)      (** fork() == -1 with errno e *)
| ForkParent (pid : Z).   (** fork() returned the child's pid *)

(** What the parent observes: the result of fork, and read(sync_pipe[0],
    &err, 4) as (size, the 4 bytes read). *)
Record parent_kernel := mkParentKernel {
  pk_fork : fork_result;
  pk_read : Z * Z
}.

(** close(fd) whose result is ignored (lines 273-274) *)
Definition close_ignoring (fd : nat) (st : proc) : proc :=
  match sys_close fd st with
  | Ok st' _ => st'
  | Fail st' => st'
  end.

(** waitpid(pid, &status, 0) *)
Definition waitpid (pid : Z) (st : proc) : proc := add_reaped pid st.

(** the fail label (lines 316-324); the printf calls only print. *)
Definition exec_fail (old_mask err result : Z) (st : proc) : proc * Z * Z :=
  let st' := set_sigmask old_mask st in
  (st', result, if decide (err <> 0) then -1 else 0).

(** [stack_old_mask] is whatever the uninitialised [sigset_t old_mask]
    holds before pthread_sigmask first writes it; [result] is *result on
    entry. Returns the process state, *result, and the return value. *)
Definition exec_command (pk : parent_kernel) (stack_old_mask : Z) (result : Z)
    (executable : string) (args envp : list string) (file_handles : list nat)
    (working_directory : option string) (attrs : exec_command_attrs)
    (st : proc) : proc * Z * Z :=
  let all := sigfillset in
  match sys_pipe st with
  | Fail st1 => exec_fail stack_old_mask 0 result st1
  | Ok st1 (p0, p1) =>
      let old_mask := sigmask st1 in
      let st2 := set_sigmask all st1 in
      match pk_fork pk with
      | ForkFailed e =>
          let st3 := set_errno e st2 in
          let st4 := close_ignoring p1 (close_ignoring p0 st3) in
          exec_fail old_mask 0 result st4
      | ForkParent pid =>
          match sys_close p1 st2 with
          | Fail st3 => exec_fail old_mask 0 result st3
          | Ok st3 _ =>
              let '(size, v) := pk_read pk in
              let err := if decide (size = 4) then v else 0 in
              let st4 := if decide (size = 4) then waitpid pid (set_errno v st3)
                         else st3 in
              match sys_close p0 st4 with
              | Fail st5 => exec_fail old_mask err result st5
              | Ok st5 _ =>
                  if decide (err <> 0) then exec_fail old_mask err result st5
                  else exec_fail old_mask 0 pid st5
              end
          end
      end
  end.

(** ** Concrete processes used below *)

Definition tty : resource := mkResource 0 true.
Definition devnull_ro : resource := mkResource 1 false.

(** stdin, stdout, stderr open on a terminal; RLIMIT_NOFILE [lim] *)
Definition proc_stdio (lim : nat) (m : Z) : proc :=
  {| fds := <[2%nat := mkFd tty false]> (<[1%nat := mkFd tty false]>
              (<[0%nat := mkFd tty false]> ∅));
     nofile := lim; errno := 0; sigmask := m; sig_default := false;
     heap_fd_table := false; sid_leader := false; proc_pgid := None;
     proc_ctty := None; proc_uid := 0; proc_gid := 0; proc_cwd := None;
     next_res := 2; written := []; reaped := [] |}.

(** A child just after fork: stdin is /dev/null opened read-only, stdout
    and stderr a terminal, the sync pipe on 3 (read) and 4 (write), all
    signals blocked, RLIMIT_NOFILE 16. *)
Definition pipe_r : resource := mkResource 2 false.
Definition pipe_w : resource := mkResource 2 true.
Definition child_start : proc :=
  {| fds := <[4%nat := mkFd pipe_w false]> (<[3%nat := mkFd pipe_r false]>
              (<[2%nat := mkFd tty false]> (<[1%nat := mkFd tty false]>
              (<[0%nat := mkFd devnull_ro false]> ∅))));
     nofile := 16; errno := 0; sigmask := sigfillset; sig_default := false;
     heap_fd_table := false; sid_leader := false; proc_pgid := None;
     proc_ctty := None; proc_uid := 0; proc_gid := 0; proc_cwd := None;
     next_res := 3; written := []; reaped := [] |}.

(** the same child after child_prologue closed the read end *)
Definition child_after_prologue : proc :=
  set_sigmask sigemptyset (set_sig_default
    (set_heap true (set_fds (delete 3%nat (fds child_start)) child_start))).

(** every call succeeds *)
Definition kernel_ok : kernel := mkKernel true None None None None None None None.

(** every call succeeds except chdir, which fails with ENOENT *)
Definition kernel_chdir_enoent : kernel :=
  mkKernel true None None None None None (Some ENOENT) None.

(** ** Frame predicates *)

(** [m] leaves the component [f] of the process unchanged when it succeeds *)
Definition keeps {X A} (f : proc -> X) (m : M A) : Prop :=
  forall st st' a, m st = Ok st' a -> f st' = f st.
Definition ckeeps {X A} (f : proc -> X) (m : CM A) : Prop :=
  forall sfd st sfd' st' a, m sfd st = COk st' sfd' a -> f st' = f st.

(** [m] preserves the state invariant [P] when it succeeds *)
Definition preserves {A} (P : proc -> Prop) (m : M A) : Prop :=
  forall st st' a, P st -> m st = Ok st' a -> P st'.

(** every open descriptor is below RLIMIT_NOFILE *)
Definition fds_bounded (st : proc) : Prop :=
  forall fd e, fds st !! fd = Some e -> (fd < nofile st)%nat.

(** * Properties *)

(** ** The descriptor-table primitives *)

Lemma find_free_Some f fuel i p :
  find_free f fuel i = Some p -> f !! p = None.
Proof.
  revert i. induction fuel as [|fuel IH]; intros i; simpl; [done|].
  destruct (f !! i) eqn:E; [apply IH|intros; simplify_eq; done].
Qed.

Lemma sys_pipe_Ok st st1 p0 p1 :
  sys_pipe st = Ok st1 (p0, p1) ->
  p0 <> p1 /\ is_Some (fds st1 !! p0) /\ is_Some (fds st1 !! p1) /\
  reaped st1 = reaped st /\ sigmask st1 = sigmask st.
Proof.
  unfold sys_pipe. cbv zeta.
  destruct (find_free (fds st) (nofile st) 0) as [q0|] eqn:E0; [|done].
  destruct (find_free (<[q0 := mkFd (mkResource (next_res st) false) false]> (fds st))
              (nofile st) 0) as [q1|] eqn:E1; [|done].
  intros H. inversion H; subst; clear H. apply find_free_Some in E1.
  assert (p0 <> p1) as Hne.
  { intros ->. rewrite lookup_insert_eq in E1. done. }
  simpl. split; [done|]. split.
  - rewrite lookup_insert_ne by done. rewrite lookup_insert_eq. eauto.
  - rewrite lookup_insert_eq. eauto.
Qed.

Lemma sys_close_Some fd st e :
  fds st !! fd = Some e ->
  sys_close fd st = Ok (set_fds (delete fd (fds st)) st) tt.
Proof. unfold sys_close. intros ->. done. Qed.

Ltac exec_cases :=
  repeat (case_match || case_decide); intros; simplify_eq/=; try done; try lia.

(** ** The parent *)

Lemma exec_command_mask_after_pipe pk m r exe args envp hs wd attrs st st1 p :
  sys_pipe st = Ok st1 p ->
  sigmask (exec_command pk m r exe args envp hs wd attrs st).1.1 = sigmask st.
Proof.
  destruct p as [p0 p1]. intros Hp.
  destruct (sys_pipe_Ok _ _ _ _ Hp) as (_ & _ & _ & _ & Hm).
  unfold exec_command, exec_fail. rewrite Hp. exec_cases.
Qed.

(** Every exit of exec_command restores the mask saved by pthread_sigmask
    once the pipe exists; when pipe() fails the fail label installs the
    uninitialised [old_mask]. *)
Lemma exec_command_final_sigmask pk m r exe args envp hs wd attrs st :
  sigmask (exec_command pk m r exe args envp hs wd attrs st).1.1 =
  match sys_pipe st with Fail _ => m | Ok _ _ => sigmask st end.
Proof.
  destruct (sys_pipe st) as [st1 p|st1] eqn:Hp.
  - by eapply exec_command_mask_after_pipe.
  - unfold exec_command, exec_fail. rewrite Hp. done.
Qed.

(** When pipe() fails, or fork() fails, exec_command returns 0 and leaves
    *result as it was. *)
Lemma exec_command_setup_failure pk m r exe args envp hs wd attrs st :
  (exists st1, sys_pipe st = Fail st1) \/ (exists e, pk_fork pk = ForkFailed e) ->
  (exec_command pk m r exe args envp hs wd attrs st).2 = 0 /\
  (exec_command pk m r exe args envp hs wd attrs st).1.2 = r.
Proof.
  unfold exec_command, exec_fail.
  intros [[st1 Hp]|[e He]].
  - rewrite Hp. done.
  - destruct (sys_pipe st) as [st1 [p0 p1]|st1]; [|done]. rewrite He. done.
Qed.

(** When fork() fails both ends of the pipe are closed. *)
Lemma exec_command_fork_failure_closes_pipe pk m r exe args envp hs wd attrs
    st st1 p0 p1 e :
  sys_pipe st = Ok st1 (p0, p1) -> pk_fork pk = ForkFailed e ->
  fds (exec_command pk m r exe args envp hs wd attrs st).1.1 !! p0 = None /\
  fds (exec_command pk m r exe args envp hs wd attrs st).1.1 !! p1 = None.
Proof.
  intros Hp He.
  destruct (sys_pipe_Ok _ _ _ _ Hp) as (Hne & [e0 H0] & [e1 H1] & _).
  unfold exec_command, exec_fail, close_ignoring. rewrite Hp, He. simpl.
  rewrite (sys_close_Some p0 _ e0) by done. simpl.
  rewrite (sys_close_Some p1 _ e1) by (simpl; rewrite lookup_delete_ne; done).
  simpl. rewrite lookup_delete_ne, lookup_delete_eq, lookup_delete_eq by done.
  done.
Qed.

(** ** C7 *)

(** C7 (counterexample): exec_command_attrs_init does not set every numeric
    id field to -1: the process group id and the controlling terminal
    descriptor are set to 0. *)
Lemma exec_command_attrs_init_ids_not_all_minus_one :
  ~ (pgid exec_command_attrs_init = -1 /\ ctty exec_command_attrs_init = -1 /\
     uid exec_command_attrs_init = to_id_t (-1) /\
     gid exec_command_attrs_init = to_id_t (-1)).
Proof. simpl. intros [H _]. discriminate. Qed.

(** C7 (amended): exec_command_attrs_init sets the flags setpgid, setsid and
    setctty to 0 (false), pgid and ctty to 0, mask to 0, and uid and gid to
    (uid_t)-1 and (gid_t)-1, that is 4294967295, the value line 218 and 225
    compare against to mean "do not change". *)
Theorem exec_command_attrs_init_fields :
  setpgid exec_command_attrs_init = 0 /\ setsid exec_command_attrs_init = 0 /\
  setctty exec_command_attrs_init = 0 /\ pgid exec_command_attrs_init = 0 /\
  ctty exec_command_attrs_init = 0 /\ mask exec_command_attrs_init = 0 /\
  uid exec_command_attrs_init = to_id_t (-1) /\
  gid exec_command_attrs_init = to_id_t (-1) /\ to_id_t (-1) = 4294967295.
Proof. repeat split. Qed.

(** ** C10 *)

(** C10: when exec_command returns -1, *result is unchanged; *result only
    ever changes on a path that returns 0, and then holds the pid fork
    returned. *)
Theorem exec_command_result_only_on_success pk m r exe args envp hs wd attrs st :
  ((exec_command pk m r exe args envp hs wd attrs st).2 = -1 ->
   (exec_command pk m r exe args envp hs wd attrs st).1.2 = r) /\
  ((exec_command pk m r exe args envp hs wd attrs st).1.2 = r \/
   ((exec_command pk m r exe args envp hs wd attrs st).2 = 0 /\
    pk_fork pk = ForkParent (exec_command pk m r exe args envp hs wd attrs st).1.2)).
Proof.
  unfold exec_command, exec_fail.
  destruct (sys_pipe st) as [st1 [p0 p1]|st1]; simpl; [|auto].
  destruct (pk_fork pk) as [e|pid] eqn:Hf; simpl; [auto|].
  destruct (sys_close p1 _) as [st3 []|st3]; simpl; [|auto].
  destruct (pk_read pk) as [size v].
  destruct (sys_close p0 _) as [st5 []|st5];
    repeat case_decide; simpl; auto; try done.
  all: split; [discriminate | right; auto].
Qed.

(** C10 witness: a child that reports ENOENT makes exec_command return -1
    with *result untouched. *)
Lemma exec_command_result_only_on_success_witness :
  (exec_command (mkParentKernel (ForkParent 42) (4, ENOENT)) 0 (-5) "/bin/nope"
     [] [] [] None exec_command_attrs_init (proc_stdio 16 0)).2 = -1 /\
  (exec_command (mkParentKernel (ForkParent 42) (4, ENOENT)) 0 (-5) "/bin/nope"
     [] [] [] None exec_command_attrs_init (proc_stdio 16 0)).1.2 = -5.
Proof.
  split; [vm_compute; reflexivity|].
  apply (proj1 (exec_command_result_only_on_success _ _ _ _ _ _ _ _ _ _)).
  vm_compute. reflexivity.
Defined.

(** ** C2 *)

(** C2 (code_bug): a full descriptor table (RLIMIT_NOFILE 3, descriptors 0-2
    open) makes pipe() fail with EMFILE, and a fork() failing with EAGAIN
    follows the same path: in both cases exec_command returns 0, the
    success value, and *result keeps its old value, because [err] is still
    0 when these paths jump to the fail label. *)
Theorem exec_command_setup_failure_returns_zero :
  sys_pipe (proc_stdio 3 0) = Fail (set_errno EMFILE (proc_stdio 3 0)) /\
  (exec_command (mkParentKernel (ForkParent 42) (0, 0)) 0 (-5) "/bin/true"
     [] [] [] None exec_command_attrs_init (proc_stdio 3 0)).2 = 0 /\
  (exec_command (mkParentKernel (ForkParent 42) (0, 0)) 0 (-5) "/bin/true"
     [] [] [] None exec_command_attrs_init (proc_stdio 3 0)).1.2 = -5 /\
  (exec_command (mkParentKernel (ForkFailed EAGAIN) (0, 0)) 0 (-5) "/bin/true"
     [] [] [] None exec_command_attrs_init (proc_stdio 16 0)).2 = 0 /\
  (exec_command (mkParentKernel (ForkFailed EAGAIN) (0, 0)) 0 (-5) "/bin/true"
     [] [] [] None exec_command_attrs_init (proc_stdio 16 0)).1.2 = -5.
Proof.
  split; [reflexivity|].
  destruct (exec_command_setup_failure (mkParentKernel (ForkParent 42) (0, 0)) 0 (-5)
              "/bin/true" [] [] [] None exec_command_attrs_init (proc_stdio 3 0))
    as [H1 H2]; [left; eexists; reflexivity|].
  destruct (exec_command_setup_failure (mkParentKernel (ForkFailed EAGAIN) (0, 0)) 0 (-5)
              "/bin/true" [] [] [] None exec_command_attrs_init (proc_stdio 16 0))
    as [H3 H4]; [right; eexists; reflexivity|].
  auto.
Qed.

(** ** C4 *)

(** C4 (code_bug): when pipe() fails, the fail label calls pthread_sigmask
    with [old_mask] before anything has stored into it; if that stack slot
    holds a full set, a caller whose mask was empty returns with every
    signal blocked. *)
Theorem exec_command_pipe_failure_sigmask :
  sigmask (exec_command (mkParentKernel (ForkParent 42) (0, 0)) sigfillset (-5)
             "/bin/true" [] [] [] None exec_command_attrs_init (proc_stdio 3 0)).1.1
    = sigfillset /\
  sigmask (proc_stdio 3 0) = sigemptyset /\ sigfillset <> sigemptyset.
Proof.
  rewrite exec_command_final_sigmask. split; [reflexivity|].
  split; [reflexivity|]. vm_compute. discriminate.
Qed.

(** ** C5 *)

(** C5: after a successful fork, a read of fewer than 4 bytes makes
    exec_command store the (positive) pid in *result and return 0 without
    waiting; a read of 4 bytes carrying a non-zero code (the child writes
    only non-zero codes, line 243) makes it wait for the pid and return -1
    with errno holding that code. *)
Theorem exec_command_sync_read pk m r exe args envp hs wd attrs st st1 p0 p1 pid size v :
  sys_pipe st = Ok st1 (p0, p1) -> pk_fork pk = ForkParent pid -> 0 < pid ->
  pk_read pk = (size, v) ->
  (size <> 4 ->
   (exec_command pk m r exe args envp hs wd attrs st).2 = 0 /\
   (exec_command pk m r exe args envp hs wd attrs st).1.2 = pid /\
   0 < (exec_command pk m r exe args envp hs wd attrs st).1.2 /\
   reaped (exec_command pk m r exe args envp hs wd attrs st).1.1 = reaped st) /\
  (size = 4 -> v <> 0 ->
   (exec_command pk m r exe args envp hs wd attrs st).2 = -1 /\
   errno (exec_command pk m r exe args envp hs wd attrs st).1.1 = v /\
   reaped (exec_command pk m r exe args envp hs wd attrs st).1.1 = pid :: reaped st).
Proof.
  intros Hp Hf Hpid Hr.
  destruct (sys_pipe_Ok _ _ _ _ Hp) as (Hne & [e0 H0] & [e1 H1] & Hreap & _).
  unfold exec_command, exec_fail. rewrite Hp, Hf.
  rewrite (sys_close_Some p1 _ e1) by done. simpl. rewrite Hr.
  split.
  - intros Hs. rewrite decide_False by done.
    rewrite (sys_close_Some p0 _ e0) by (simpl; rewrite lookup_delete_ne; done).
    simpl. repeat case_decide; try lia; simpl; rewrite ?Hreap; auto.
  - intros Hs Hv. rewrite decide_True by done.
    rewrite (sys_close_Some p0 _ e0) by (simpl; rewrite lookup_delete_ne; done).
    simpl. repeat case_decide; try lia; simpl; rewrite ?Hreap; auto.
Qed.

(** C5 witness: the child reports ENOENT. *)
Lemma exec_command_sync_read_witness :
  (exec_command (mkParentKernel (ForkParent 42) (4, ENOENT)) 0 (-5) "/bin/nope"
     [] [] [] None exec_command_attrs_init (proc_stdio 16 0)).2 = -1 /\
  errno (exec_command (mkParentKernel (ForkParent 42) (4, ENOENT)) 0 (-5) "/bin/nope"
     [] [] [] None exec_command_attrs_init (proc_stdio 16 0)).1.1 = ENOENT /\
  reaped (exec_command (mkParentKernel (ForkParent 42) (4, ENOENT)) 0 (-5) "/bin/nope"
     [] [] [] None exec_command_attrs_init (proc_stdio 16 0)).1.1
    = 42 :: reaped (proc_stdio 16 0).
Proof.
  refine (proj2 (exec_command_sync_read _ _ _ _ _ _ _ _ _ _ _ 3%nat 4%nat 42 4 ENOENT
                   _ _ _ _) eq_refl _).
  all: first [reflexivity | lia | (cbv; discriminate)].
Defined.

(** ** Frame lemmas: a component of the process a piece of code leaves alone *)


Create HintDb keeps.

Lemma keeps_ret {X A} (f : proc -> X) (a : A) : keeps f (mret a).
Proof. intros st st' b H. unfold mret, M_ret in H. congruence. Qed.

Lemma keeps_bind {X A B} (f : proc -> X) (m : M A) (k : A -> M B) :
  keeps f m -> (forall a, keeps f (k a)) -> keeps f (m ≫= k).
Proof.
  intros Hm Hk st st' b. unfold mbind, M_bind.
  destruct (m st) as [st1 a|] eqn:E; [|discriminate]. intros H.
  rewrite (Hk _ _ _ _ H). eapply Hm; eauto.
Qed.

Lemma ckeeps_ret {X A} (f : proc -> X) (a : A) : ckeeps f (mret a).
Proof. intros sfd st sfd' st' b H. unfold mret, CM_ret in H. congruence. Qed.

Lemma ckeeps_bind {X A B} (f : proc -> X) (m : CM A) (k : A -> CM B) :
  ckeeps f m -> (forall a, ckeeps f (k a)) -> ckeeps f (m ≫= k).
Proof.
  intros Hm Hk sfd st sfd' st' b. unfold mbind, CM_bind.
  destruct (m sfd st) as [st1 sfd1 a|] eqn:E; [|discriminate]. intros H.
  rewrite (Hk _ _ _ _ _ _ H). eapply Hm; eauto.
Qed.

Lemma ckeeps_lift {X A} (f : proc -> X) (m : M A) : keeps f m -> ckeeps f (lift m).
Proof.
  intros Hm sfd st sfd' st' a. unfold lift.
  destruct (m st) eqn:E; [|discriminate]. intros H. inversion H; subst. eauto.
Qed.

Lemma ckeeps_get {X} (f : proc -> X) : ckeeps f get_syncfd.
Proof. intros ? ? ? ? ? H. unfold get_syncfd in H. congruence. Qed.
Lemma ckeeps_put {X} (f : proc -> X) n : ckeeps f (put_syncfd n).
Proof. intros ? ? ? ? ? H. unfold put_syncfd in H. congruence. Qed.

#[export] Hint Resolve keeps_ret ckeeps_ret ckeeps_get ckeeps_put : keeps.

Ltac keeps_step :=
  match goal with
  | |- keeps _ (mbind _ _) => apply keeps_bind; intros
  | |- ckeeps _ (mbind _ _) => apply ckeeps_bind; intros
  | |- ckeeps _ (lift _) => apply ckeeps_lift
  | |- keeps _ (match ?x with _ => _ end) => destruct x
  | |- ckeeps _ (match ?x with _ => _ end) => destruct x
  end.
Ltac solve_keeps := repeat (keeps_step || (progress eauto with keeps)).

(** every primitive is one of these shapes *)
Ltac prim_keeps :=
  intros ?st ?st' ?a; repeat (case_match || case_decide); intros ?H; simplify_eq;
  reflexivity.

Lemma dup2_sigmask o n : keeps sigmask (dup2 o n).
Proof. unfold dup2. prim_keeps. Qed.
Lemma close_sigmask fd : keeps sigmask (sys_close fd).
Proof. unfold sys_close. prim_keeps. Qed.
Lemma fcntl_sigmask fd b : keeps sigmask (fcntl_setfd fd b).
Proof. unfold fcntl_setfd. prim_keeps. Qed.
Lemma fcntl_ebadf_sigmask fd : keeps sigmask (fcntl_cloexec_or_ebadf fd).
Proof. unfold fcntl_cloexec_or_ebadf, fcntl_setfd. prim_keeps. Qed.
Lemma getrlimit_sigmask : keeps sigmask getrlimit_nofile.
Proof. unfold getrlimit_nofile. prim_keeps. Qed.
Lemma outcome_sigmask o upd :
  (forall st, sigmask (upd st) = sigmask st) -> keeps sigmask (sys_outcome o upd).
Proof.
  intros Hu st st' a. unfold sys_outcome. destruct o; intros H; simplify_eq; auto.
Qed.

Lemma tiocsctty_sigmask k fd : keeps sigmask (ioctl_tiocsctty k fd).
Proof.
  intros st st' a. unfold ioctl_tiocsctty.
  case_decide; [|intros; discriminate]. case_match; [|intros; discriminate].
  apply outcome_sigmask. reflexivity.
Qed.

#[export] Hint Resolve dup2_sigmask close_sigmask fcntl_sigmask fcntl_ebadf_sigmask
  getrlimit_sigmask tiocsctty_sigmask : keeps.
#[export] Hint Extern 1 (keeps sigmask (sys_outcome _ _)) =>
  apply outcome_sigmask; reflexivity : keeps.

Lemma move_up_sigmask i l idx : keeps sigmask (move_up i l idx).
Proof. revert i idx. induction l; intros; simpl; solve_keeps. Qed.
Lemma place_sigmask i l : keeps sigmask (place i l).
Proof. revert i. induction l; intros; simpl; solve_keeps. Qed.
Lemma cloexec_from_sigmask c i : keeps sigmask (cloexec_from c i).
Proof. revert i. induction c; intros; simpl; solve_keeps. Qed.
#[export] Hint Resolve move_up_sigmask place_sigmask cloexec_from_sigmask : keeps.

Lemma child_rest_sigmask k hs attrs cwd exe args env :
  ckeeps sigmask (renumbering_phase k hs attrs;;
                  lift (identity_steps k attrs cwd);;
                  lift (sys_execve k exe args env)).
Proof.
  unfold renumbering_phase, shuffle_fds, protect_sync, relocate_sync,
    session_steps, cloexec_above, identity_steps, sys_execve.
  solve_keeps.
Qed.

Lemma child_prologue_sigmask k r n st st' a :
  child_prologue k r n st = Ok st' a -> sigmask st' = sigemptyset.
Proof.
  unfold child_prologue, mbind, M_bind, set_thread_sigmask.
  repeat case_match; intros Hok; simplify_eq; reflexivity.
Qed.

Lemma fail_handler_not_exec fuel sfd st st' :
  fail_handler fuel sfd st <> ChildExec st'.
Proof. unfold fail_handler. repeat case_match; discriminate. Qed.

(** ** C9 *)

(** C9: the child's behaviour does not depend on the attributes' mask
    field, and a child that reaches execve does so with an empty blocked
    signal mask (line 80-81 install sigemptyset). *)
Theorem child_handler_mask_field_inert k fuel sp exe args env hs cwd om attrs m st :
  child_handler k fuel sp exe args env hs cwd om
    (mkAttrs (setpgid attrs) (pgid attrs) (setctty attrs) (ctty attrs)
       (setsid attrs) (uid attrs) (gid attrs) m) st =
  child_handler k fuel sp exe args env hs cwd om attrs st /\
  (forall st', child_handler k fuel sp exe args env hs cwd om attrs st = ChildExec st' ->
   sigmask st' = sigemptyset).
Proof.
  split; [destruct attrs; reflexivity|].
  intros st' H. unfold child_handler in H.
  destruct (child_body k sp exe args env hs cwd attrs (snd sp) st)
    as [st1 sfd1 a|st1 sfd1] eqn:E;
    [|exfalso; eapply fail_handler_not_exec; eauto].
  inversion H; subst st1. clear H.
  unfold child_body in E. unfold mbind at 1, CM_bind at 1 in E.
  destruct (lift (child_prologue k (fst sp) (length hs)) (snd sp) st)
    as [st0 sfd0 []|] eqn:E1; [|discriminate].
  unfold lift in E1.
  destruct (child_prologue k (fst sp) (length hs) st) as [st0' []|] eqn:E2;
    [|discriminate].
  inversion E1; subst. clear E1.
  rewrite (child_rest_sigmask k hs attrs cwd exe args env _ _ _ _ _ E).
  eapply child_prologue_sigmask; eauto.
Qed.

(** C9 witness: requests [2; 1; 0] with every call succeeding. *)
Lemma child_handler_mask_field_inert_witness :
  match child_handler kernel_ok 1 (3%nat, 4%nat) "/bin/true" [] [] [2; 1; 0]%nat None
          sigfillset exec_command_attrs_init child_start with
  | ChildExec st' => sigmask st' = sigemptyset
  | _ => False
  end.
Proof.
  destruct (child_handler kernel_ok 1 (3%nat, 4%nat) "/bin/true" [] [] [2; 1; 0]%nat None
          sigfillset exec_command_attrs_init child_start) eqn:E.
  - exact (proj2 (child_handler_mask_field_inert kernel_ok 1 (3%nat, 4%nat) "/bin/true"
                    [] [] [2; 1; 0]%nat None sigfillset exec_command_attrs_init 0
                    child_start) _ E).
  - vm_compute in E. discriminate.
  - vm_compute in E. discriminate.
Defined.

(** ** Relocation of the sync descriptor (lines 133-158) *)

Lemma max_fd_from_bounds acc l :
  (acc <= max_fd_from acc l)%nat /\ (forall v, v ∈ l -> v <= max_fd_from acc l)%nat.
Proof.
  revert acc. induction l as [|h t IH]; intros acc; simpl.
  - split; [lia|]. intros v Hv. apply elem_of_nil in Hv. done.
  - destruct (IH (if (acc <? h)%nat then h else acc)) as [H1 H2].
    destruct (Nat.ltb_spec acc h); split; try lia;
      intros v Hv; apply elem_of_cons in Hv as [->|Hv]; auto; lia.
Qed.

Lemma max_fd_from_cases acc l : max_fd_from acc l = acc \/ max_fd_from acc l ∈ l.
Proof.
  revert acc. induction l as [|h t IH]; intros acc; simpl; [auto|].
  destruct (IH (if (acc <? h)%nat then h else acc)) as [E|E].
  - rewrite E. destruct (acc <? h)%nat; [right; left|left; done].
  - right. right. done.
Qed.

Lemma max_fd_ge hs v : v ∈ hs -> (v <= max_fd hs)%nat.
Proof. apply (max_fd_from_bounds 0 hs). Qed.

Lemma protect_sync_spec hs sfd st e :
  fds st !! sfd = Some e -> (S (max_fd hs) < nofile st)%nat ->
  protect_sync hs sfd st =
  COk (set_fds (<[S (max_fd hs) := mkFd (fd_res e) true]> (delete sfd (fds st))) st)
      (S (max_fd hs)) (S (S (max_fd hs))).
Proof.
  intros He Hlim.
  unfold protect_sync, relocate_sync, mbind, CM_bind, M_bind, get_syncfd, put_syncfd,
    lift, mret, CM_ret, M_ret.
  set (t := S (max_fd hs)).
  case_decide as Heq.
  - subst sfd. unfold fcntl_setfd. rewrite He. simpl.
    rewrite insert_delete_eq. reflexivity.
  - unfold dup2. rewrite He. rewrite decide_True by done.
    rewrite decide_False by done. simpl.
    unfold sys_close. simpl. rewrite lookup_insert_ne by done. rewrite He. simpl.
    unfold fcntl_setfd. simpl.
    rewrite lookup_delete_ne by done. rewrite lookup_insert_eq. simpl.
    rewrite delete_insert_ne by done. rewrite insert_insert_eq. reflexivity.
Qed.

(** ** C8 *)

(** C8 (counterexample): a sync descriptor already above 1 + the highest
    source descriptor is still moved: with requests [0] and the sync pipe
    on 4, it is moved down to 1 and 4 is closed. *)
Lemma protect_sync_moves_higher_sync_down :
  (S (max_fd [0%nat]) < 4)%nat /\
  match protect_sync [0%nat] 4%nat child_after_prologue with
  | COk st' sfd _ => sfd = 1%nat /\ fds st' !! 4%nat = None
  | CFail _ _ => False
  end.
Proof. split; [cbv; lia|]. vm_compute. split; reflexivity. Qed.

(** C8 (amended): the sync descriptor is moved to fd_index = 1 + max(0,
    source descriptors) by dup2 and close of the original, skipped only
    when it already equals that number (it is moved down when above it),
    and the descriptor it ends on is marked FD_CLOEXEC; nothing else in the
    table changes. *)
Theorem protect_sync_relocates hs sfd st e :
  fds st !! sfd = Some e -> (S (max_fd hs) < nofile st)%nat ->
  (forall v, v ∈ hs -> v <= max_fd hs)%nat /\
  (max_fd hs = 0%nat \/ max_fd hs ∈ hs) /\
  protect_sync hs sfd st =
  COk (set_fds (<[S (max_fd hs) := mkFd (fd_res e) true]> (delete sfd (fds st))) st)
      (S (max_fd hs)) (S (S (max_fd hs))).
Proof.
  intros He Hlim. split; [intros; by apply max_fd_ge|].
  split; [apply max_fd_from_cases|]. by apply protect_sync_spec.
Qed.

(** C8 witness: requests [2; 1; 0] with the sync pipe on 4 after the
    prologue: it moves to 3. *)
Lemma protect_sync_relocates_witness :
  protect_sync [2; 1; 0]%nat 4%nat child_after_prologue =
  COk (set_fds (<[3%nat := mkFd pipe_w true]> (delete 4%nat (fds child_after_prologue)))
         child_after_prologue) 3%nat 4%nat.
Proof.
  exact (proj2 (proj2 (protect_sync_relocates [2; 1; 0]%nat 4%nat child_after_prologue
                         (mkFd pipe_w false) eq_refl ltac:(cbv; lia)))).
Defined.

(** ** C3 *)

(** C3 (counterexample): with no descriptor requests the sync descriptor is
    moved onto descriptor 1, which was open on the terminal: what 1 referred
    to is replaced. *)
Lemma shuffle_fds_empty_overwrites_fd1 :
  fds child_after_prologue !! 1%nat = Some (mkFd tty false) /\
  match shuffle_fds [] 4%nat child_after_prologue with
  | COk st' _ _ => fds st' !! 1%nat = Some (mkFd pipe_w true)
  | CFail _ _ => False
  end.
Proof. vm_compute. split; reflexivity. Qed.

(** C3 (amended): with no descriptor requests the renumbering moves the
    sync descriptor to descriptor 1 (dup2 and close of the original,
    skipped when it is already 1), replacing whatever 1 referred to, and
    marks it FD_CLOEXEC; every other descriptor except the original sync
    descriptor, which is closed, is left as it was. *)
Theorem shuffle_fds_empty_request sfd st e :
  fds st !! sfd = Some e -> (1 < nofile st)%nat ->
  shuffle_fds [] sfd st =
  COk (set_fds (<[1%nat := mkFd (fd_res e) true]> (delete sfd (fds st))) st) 1%nat tt /\
  (forall fd, fd <> 1%nat -> fd <> sfd ->
     (<[1%nat := mkFd (fd_res e) true]> (delete sfd (fds st))) !! fd = fds st !! fd).
Proof.
  intros He Hlim. split.
  - unfold shuffle_fds. unfold mbind at 1, CM_bind at 1.
    rewrite (protect_sync_spec [] sfd st e He Hlim). reflexivity.
  - intros fd H1 Hs. rewrite lookup_insert_ne by done.
    rewrite lookup_delete_ne by done. reflexivity.
Qed.

(** C3 witness: the child of [child_start] after its prologue. *)
Lemma shuffle_fds_empty_request_witness :
  shuffle_fds [] 4%nat child_after_prologue =
  COk (set_fds (<[1%nat := mkFd pipe_w true]> (delete 4%nat (fds child_after_prologue)))
         child_after_prologue) 1%nat tt.
Proof.
  exact (proj1 (shuffle_fds_empty_request 4%nat child_after_prologue (mkFd pipe_w false)
                  eq_refl ltac:(cbv; lia))).
Defined.

(** ** The failure handler (lines 238-248) *)

Lemma write_retry_unwritable fuel fd v st :
  (forall e, fds st !! fd = Some e -> res_writable (fd_res e) = false) ->
  write_retry fuel fd v st = None.
Proof.
  revert st. induction fuel as [|fuel IH]; intros st Hw; simpl; [done|].
  unfold sys_write. destruct (fds st !! fd) as [e|] eqn:E.
  - rewrite (Hw e eq_refl). apply IH. simpl. rewrite E. exact Hw.
  - apply IH. simpl. rewrite E. discriminate.
Qed.

(** With a non-zero errno and a sync descriptor that is closed or refers to
    a description not open for writing, every write fails with EBADF and
    the loop never exits. *)
Lemma fail_handler_spins fuel sfd st :
  errno st <> 0 ->
  (forall e, fds st !! sfd = Some e -> res_writable (fd_res e) = false) ->
  fail_handler fuel sfd st = ChildSpinning.
Proof.
  intros Herr Hw. unfold fail_handler.
  assert (errno (if heap_fd_table st then set_heap false st else st) = errno st) as ->
    by (destruct (heap_fd_table st); reflexivity).
  rewrite decide_True by done.
  rewrite write_retry_unwritable; [done|].
  destruct (heap_fd_table st); exact Hw.
Qed.

(** ** C6 *)

(** C6 (code_bug): requests [0; 0] with descriptor 0 open read-only (the
    child of [child_start]) and a working directory that does not exist.
    The renumbering moves the sync pipe to 1 and then dup2s the copy of 0
    onto 1, so when chdir fails with ENOENT the fail label writes to a
    read-only descriptor: every write fails with EBADF and
    [while (write(...) < 0);] retries forever, the child never exits. *)
Theorem child_handler_write_retry_never_ends :
  match child_body kernel_chdir_enoent (3%nat, 4%nat) "/bin/true" [] [] [0; 0]%nat
          (Some "/nonexistent") exec_command_attrs_init 4%nat child_start with
  | CFail st' sfd =>
      sfd = 1%nat /\ errno st' = ENOENT /\ fds st' !! 1%nat = Some (mkFd devnull_ro false)
  | COk _ _ _ => False
  end /\
  forall fuel,
    child_handler kernel_chdir_enoent fuel (3%nat, 4%nat) "/bin/true" [] [] [0; 0]%nat
      (Some "/nonexistent") sigfillset exec_command_attrs_init child_start = ChildSpinning.
Proof.
  split; [vm_compute; auto|].
  intros fuel. unfold child_handler. simpl (snd _).
  destruct (child_body kernel_chdir_enoent (3%nat, 4%nat) "/bin/true" [] [] [0; 0]%nat
              (Some "/nonexistent") exec_command_attrs_init 4%nat child_start)
    as [st' sfd a|st' sfd] eqn:E;
    pose proof E as E'; vm_compute in E'; [discriminate|].
  inversion E'; subst. clear E'.
  apply fail_handler_spins; [discriminate|].
  intros e He. vm_compute in He. inversion He. reflexivity.
Qed.

(** ** The renumbering (lines 133-215) *)

Lemma bind_Ok_inv {A B} (m : M A) (k : A -> M B) st st' b :
  (m ≫= k) st = Ok st' b -> exists st1 a, m st = Ok st1 a /\ k a st1 = Ok st' b.
Proof.
  unfold mbind, M_bind. destruct (m st) as [st1 a|]; [|discriminate]. eauto.
Qed.

Lemma cbind_COk_inv {A B} (m : CM A) (k : A -> CM B) sfd st sfd' st' b :
  (m ≫= k) sfd st = COk st' sfd' b ->
  exists st1 sfd1 a, m sfd st = COk st1 sfd1 a /\ k a sfd1 st1 = COk st' sfd' b.
Proof.
  unfold mbind, CM_bind. destruct (m sfd st) as [st1 sfd1 a|]; [|discriminate]. eauto.
Qed.

Lemma lift_COk_inv {A} (m : M A) sfd st sfd' st' a :
  lift m sfd st = COk st' sfd' a -> m st = Ok st' a /\ sfd' = sfd.
Proof.
  unfold lift. destruct (m st); intros H; inversion H; subst; auto.
Qed.

Lemma preserves_ret {A} P (a : A) : preserves P (mret a).
Proof. intros st st' b HP Hok. unfold mret, M_ret in Hok. inversion Hok; subst. done. Qed.

Lemma preserves_bind {A B} P (m : M A) (k : A -> M B) :
  preserves P m -> (forall a, preserves P (k a)) -> preserves P (m ≫= k).
Proof.
  intros Hm Hk st st' b HP H. apply bind_Ok_inv in H as (st1 & a & H1 & H2).
  eapply Hk; [eapply Hm|]; eauto.
Qed.

Lemma dup2_bounded o n : preserves fds_bounded (dup2 o n).
Proof.
  intros st st' a Hb. unfold dup2.
  destruct (fds st !! o); [|discriminate].
  case_decide as Hlt; [|discriminate].
  case_decide as Heq; intros Hok; inversion Hok; subst; [done|].
  intros fd e'. simpl. destruct (decide (fd = n)) as [->|Hne]; [intros _; done|].
  rewrite lookup_insert_ne by done. apply Hb.
Qed.

Lemma fcntl_bounded fd b : preserves fds_bounded (fcntl_setfd fd b).
Proof.
  intros st st' a Hb. unfold fcntl_setfd.
  destruct (fds st !! fd) eqn:E; intros Hok; inversion Hok; subst.
  intros fd' e'. simpl. destruct (decide (fd' = fd)) as [->|Hne].
  - intros _. eapply Hb; eauto.
  - rewrite lookup_insert_ne by done. apply Hb.
Qed.

Lemma fcntl_ebadf_bounded fd : preserves fds_bounded (fcntl_cloexec_or_ebadf fd).
Proof.
  intros st st' a Hb. unfold fcntl_cloexec_or_ebadf.
  destruct (fcntl_setfd fd true st) eqn:E.
  - intros Hok; inversion Hok; subst. eapply fcntl_bounded; eauto.
  - unfold fcntl_setfd in E. destruct (fds st !! fd); [discriminate|].
    inversion E; subst. case_decide; intros Hok; inversion Hok; subst. exact Hb.
Qed.

Lemma outcome_bounded o upd :
  (forall st, fds (upd st) = fds st /\ nofile (upd st) = nofile st) ->
  preserves fds_bounded (sys_outcome o upd).
Proof.
  intros Hu st st' a Hb. unfold sys_outcome. destruct o; intros Hok; inversion Hok; subst.
  intros fd e. destruct (Hu st) as [-> ->]. apply Hb.
Qed.

Lemma tiocsctty_bounded k fd : preserves fds_bounded (ioctl_tiocsctty k fd).
Proof.
  intros st st' a Hb. unfold ioctl_tiocsctty.
  case_decide; [|discriminate]. case_match; [|discriminate].
  apply outcome_bounded; [split; reflexivity|done].
Qed.

Lemma getrlimit_bounded : preserves fds_bounded getrlimit_nofile.
Proof. intros st st' a Hb Hok. unfold getrlimit_nofile in Hok. inversion Hok; subst. done. Qed.

#[export] Hint Resolve preserves_ret dup2_bounded fcntl_bounded fcntl_ebadf_bounded
  tiocsctty_bounded getrlimit_bounded : keeps.
#[export] Hint Extern 1 (preserves fds_bounded (sys_outcome _ _)) =>
  apply outcome_bounded; split; reflexivity : keeps.

Ltac pres_step :=
  match goal with
  | |- preserves _ (mbind _ _) => apply preserves_bind; intros
  | |- preserves _ (match ?x with _ => _ end) => destruct x
  end.
Ltac solve_pres := repeat (pres_step || (progress eauto with keeps)).

Lemma move_up_bounded i l idx : preserves fds_bounded (move_up i l idx).
Proof. revert i idx. induction l; intros; simpl; solve_pres. Qed.
Lemma place_bounded i l : preserves fds_bounded (place i l).
Proof. revert i. induction l; intros; simpl; solve_pres. Qed.
Lemma session_bounded k attrs : preserves fds_bounded (session_steps k attrs).
Proof. unfold session_steps. solve_pres. Qed.

Lemma outcome_fds o upd :
  (forall st, fds (upd st) = fds st) -> keeps fds (sys_outcome o upd).
Proof.
  intros Hu st st' a. unfold sys_outcome. destruct o; intros H; simplify_eq; auto.
Qed.
Lemma tiocsctty_fds k fd : keeps fds (ioctl_tiocsctty k fd).
Proof.
  intros st st' a. unfold ioctl_tiocsctty.
  case_decide; [|intros; discriminate]. case_match; [|intros; discriminate].
  apply outcome_fds. reflexivity.
Qed.
#[export] Hint Resolve tiocsctty_fds : keeps.
#[export] Hint Extern 1 (keeps fds (sys_outcome _ _)) =>
  apply outcome_fds; reflexivity : keeps.

Lemma session_fds k attrs : keeps fds (session_steps k attrs).
Proof. unfold session_steps. solve_keeps. Qed.

Section Renumbering.
Local Open Scope nat_scope.

(** lines 161-173: with every source at most [m] and the copies starting
    above [m + 1], each entry ends on its own position or on a fresh copy
    above that position, referring to what the source referred to; nothing
    below the first copy is touched. *)
Lemma move_up_spec m l : forall i idx st st' t idx',
  (forall v, v ∈ l -> v <= m) -> S m < idx -> i < idx ->
  (forall v, v ∈ l -> is_Some (fds st !! v)) ->
  move_up i l idx st = Ok st' (t, idx') ->
  (forall j v, l !! j = Some v -> exists w, t !! j = Some w /\
     (w = i + j \/ i + j < w) /\ fd_res <$> fds st' !! w = fd_res <$> fds st !! v) /\
  (forall fd, fd < idx -> fds st' !! fd = fds st !! fd).
Proof.
  induction l as [|v rest IH]; intros i idx st st' t idx' Hle Hm Hi Hopen Hmv.
  - simpl in Hmv. unfold mret, M_ret in Hmv. inversion Hmv; subst.
    split; [intros j v Hj; rewrite lookup_nil in Hj; discriminate|done].
  - assert (v <= m) as Hvm by (apply Hle; apply elem_of_cons; by left).
    simpl in Hmv. destruct (decide (v = i)) as [Hvi|Hvi].
    + subst v. apply bind_Ok_inv in Hmv as (st1 & [rest' idx1] & H1 & H2).
      unfold mret, M_ret in H2. inversion H2; subst. clear H2.
      destruct (IH (S i) idx st st' rest' idx') as [IHa IHb]; try done.
      { intros w Hw. apply Hle. apply elem_of_cons; by right. }
      { lia. }
      { intros w Hw. apply Hopen. apply elem_of_cons; by right. }
      split; [|done].
      intros [|j] w Hj; simpl in Hj.
      * injection Hj as <-. exists i. split; [done|]. split; [left; lia|].
        rewrite IHb by lia. done.
      * destruct (IHa j w Hj) as (w' & Hw' & Hrange & Hres).
        exists w'. split; [done|]. split; [lia|done].
    + apply bind_Ok_inv in Hmv as (st1 & [] & Hd & Hmv).
      apply bind_Ok_inv in Hmv as (st2 & [] & Hf & Hmv).
      apply bind_Ok_inv in Hmv as (st3 & [rest' idx1] & Hrec & Hret).
      unfold mret, M_ret in Hret. inversion Hret; subst. clear Hret.
      destruct (Hopen v (proj2 (elem_of_cons _ _ _) (or_introl eq_refl))) as [e He].
      unfold dup2 in Hd. rewrite He in Hd.
      destruct (decide (idx < nofile st)) as [Hlt|]; [|discriminate].
      rewrite decide_False in Hd by lia. injection Hd as <-.
      unfold fcntl_setfd in Hf. simpl in Hf. rewrite lookup_insert_eq in Hf.
      injection Hf as <-.
      remember (set_fds (<[idx := mkFd (fd_res e) true]>
                  (<[idx := mkFd (fd_res e) false]> (fds st)))
                (set_fds (<[idx := mkFd (fd_res e) false]> (fds st)) st)) as st2 eqn:Hst2.
      assert (Hfds2 : forall fd, fd <> idx -> fds st2 !! fd = fds st !! fd).
      { intros fd Hne. subst st2. simpl. rewrite !lookup_insert_ne by done. done. }
      assert (Hidx2 : fds st2 !! idx = Some (mkFd (fd_res e) true)).
      { subst st2. simpl. rewrite lookup_insert_eq. done. }
      destruct (IH (S i) (S idx) st2 st' rest' idx') as [IHa IHb]; try done.
      { intros w Hw. apply Hle. apply elem_of_cons; by right. }
      { lia. }
      { lia. }
      { intros w Hw. assert (w <= m) by (apply Hle; apply elem_of_cons; by right).
        rewrite Hfds2 by lia. apply Hopen. apply elem_of_cons; by right. }
      split.
      * intros [|j] w Hj; simpl in Hj.
        -- injection Hj as <-. exists idx. split; [done|]. split; [lia|].
           rewrite IHb, Hidx2, He by lia. done.
        -- destruct (IHa j w Hj) as (w' & Hw' & Hrange & Hres).
           exists w'. split; [done|]. split; [lia|].
           assert (w <= m) by (apply Hle; apply elem_of_cons; right;
                               by eapply list_elem_of_lookup_2).
           rewrite Hres, Hfds2 by lia. done.
      * intros fd Hfd. rewrite IHb, Hfds2 by lia. done.
Qed.
(** lines 176-187: when every entry lies on or above its position, and
    is open, the placement loop leaves on each position [i + j] what entry
    [j] referred to, with FD_CLOEXEC clear; positions below [i] are
    untouched. *)
Lemma place_spec l : forall i st st',
  (forall j w, l !! j = Some w -> w = i + j \/ i + j < w) ->
  (forall j w, l !! j = Some w -> is_Some (fds st !! w)) ->
  place i l st = Ok st' tt ->
  (forall j w, l !! j = Some w ->
     fd_res <$> fds st' !! (i + j) = fd_res <$> fds st !! w /\
     fd_cloexec <$> fds st' !! (i + j) = Some false) /\
  (forall fd, fd < i -> fds st' !! fd = fds st !! fd).
Proof.
  induction l as [|w0 rest IH]; intros i st st' Hpos Hopen Hp.
  - simpl in Hp. unfold mret, M_ret in Hp. inversion Hp; subst.
    split; [intros j w Hj; rewrite lookup_nil in Hj; discriminate|done].
  - simpl in Hp.
    apply bind_Ok_inv in Hp as (st1 & [] & Hd & Hp).
    apply bind_Ok_inv in Hp as (st2 & [] & Hf & Hp).
    destruct (Hopen 0 w0 eq_refl) as [e0 He0].
    assert (Hfds2 : fds st2 = <[i := mkFd (fd_res e0) false]> (fds st)).
    { destruct (decide (w0 = i)) as [Heq|Hne].
      - subst w0. unfold mret, M_ret in Hd. injection Hd as <-.
        unfold fcntl_setfd in Hf. rewrite He0 in Hf. injection Hf as <-. done.
      - unfold dup2 in Hd. rewrite He0 in Hd.
        destruct (decide (i < nofile st)); [|discriminate].
        rewrite decide_False in Hd by done. injection Hd as <-.
        unfold fcntl_setfd in Hf. simpl in Hf. rewrite lookup_insert_eq in Hf.
        injection Hf as <-. simpl. by rewrite insert_insert_eq. }
    destruct (IH (S i) st2 st') as [IHa IHb]; try done.
    { intros j w Hj. specialize (Hpos (S j) w Hj). lia. }
    { intros j w Hj. specialize (Hpos (S j) w Hj).
      rewrite Hfds2, lookup_insert_ne by lia. exact (Hopen (S j) w Hj). }
    split.
    + intros [|j] w Hj; simpl in Hj.
      * injection Hj as <-. replace (i + 0) with i by lia.
        rewrite IHb, Hfds2, lookup_insert_eq, He0 by lia. done.
      * specialize (Hpos (S j) w Hj). replace (i + S j) with (S i + j) by lia.
        destruct (IHa j w Hj) as [Hr Hc]. split; [|done].
        rewrite Hr, Hfds2, lookup_insert_ne by lia. done.
    + intros fd Hfd. rewrite IHb, Hfds2, lookup_insert_ne by lia. done.
Qed.

(** lines 211-215: the FD_CLOEXEC sweep over [i, i + c) changes no
    descriptor's resource, touches nothing outside the range, and leaves
    every open descriptor of the range marked FD_CLOEXEC. *)
Lemma cloexec_from_spec c : forall i st st',
  cloexec_from c i st = Ok st' tt ->
  (forall fd, fd_res <$> fds st' !! fd = fd_res <$> fds st !! fd) /\
  (forall fd, fd < i \/ i + c <= fd -> fds st' !! fd = fds st !! fd) /\
  (forall fd e, fds st' !! fd = Some e -> i <= fd < i + c -> fd_cloexec e = true) /\
  nofile st' = nofile st.
Proof.
  induction c as [|c IH]; intros i st st' Hc.
  - simpl in Hc. unfold mret, M_ret in Hc. inversion Hc; subst.
    split; [done|]. split; [done|]. split; [intros; lia|done].
  - simpl in Hc. apply bind_Ok_inv in Hc as (st1 & [] & H1 & Hc).
    assert (Hst1 : fds st1 = match fds st !! i with
                             | Some e => <[i := mkFd (fd_res e) true]> (fds st)
                             | None => fds st end /\ nofile st1 = nofile st).
    { unfold fcntl_cloexec_or_ebadf, fcntl_setfd in H1.
      destruct (fds st !! i) eqn:E.
      - injection H1 as <-. done.
      - cbv beta iota in H1. rewrite decide_True in H1 by done. injection H1 as <-. done. }
    destruct Hst1 as [Hfds1 Hnf1].
    destruct (IH (S i) st1 st' Hc) as (Hr & Hfr & Hce & Hnf).
    split; [|split; [|split]].
    + intros fd. rewrite Hr, Hfds1.
      destruct (fds st !! i) as [e|] eqn:E; [|done].
      destruct (decide (fd = i)) as [->|Hne].
      * rewrite lookup_insert_eq, E. done.
      * rewrite lookup_insert_ne by done. done.
    + intros fd Hfd. rewrite Hfr by lia. rewrite Hfds1.
      destruct (fds st !! i); [|done]. rewrite lookup_insert_ne by lia. done.
    + intros fd e Hfd Hrange.
      destruct (decide (fd = i)) as [->|Hne].
      * rewrite Hfr in Hfd by lia. rewrite Hfds1 in Hfd.
        destruct (fds st !! i) as [e'|] eqn:E.
        -- rewrite lookup_insert_eq in Hfd. injection Hfd as <-. done.
        -- congruence.
      * apply (Hce fd e Hfd). lia.
    + congruence.
Qed.

Lemma move_up_length l : forall i idx st st' t idx',
  move_up i l idx st = Ok st' (t, idx') -> length t = length l.
Proof.
  induction l as [|v rest IH]; intros i idx st st' t idx' Hmv; simpl in Hmv.
  - unfold mret, M_ret in Hmv. inversion Hmv; subst. done.
  - destruct (decide (v = i)).
    + apply bind_Ok_inv in Hmv as (st1 & [r i1] & H1 & H2).
      unfold mret, M_ret in H2. inversion H2; subst. simpl. f_equal. eauto.
    + apply bind_Ok_inv in Hmv as (st1 & [] & _ & Hmv).
      apply bind_Ok_inv in Hmv as (st2 & [] & _ & Hmv).
      apply bind_Ok_inv in Hmv as (st3 & [r i1] & H1 & H2).
      unfold mret, M_ret in H2. inversion H2; subst. simpl. f_equal. eauto.
Qed.

(** a relocation that succeeds had room for 1 + the highest source *)
Lemma protect_sync_limit hs sfd st e st1 sfd1 x :
  fds st !! sfd = Some e -> fds_bounded st ->
  protect_sync hs sfd st = COk st1 sfd1 x -> S (max_fd hs) < nofile st.
Proof.
  intros He Hb Hp.
  destruct (decide (S (max_fd hs) < nofile st)) as [|Hge]; [done|exfalso].
  unfold protect_sync, relocate_sync, mbind, CM_bind, M_bind, get_syncfd, put_syncfd,
    lift, mret, CM_ret, M_ret in Hp.
  cbv zeta in Hp. destruct (decide (sfd = S (max_fd hs))) as [Heq|Hne].
  - specialize (Hb sfd e He). lia.
  - unfold dup2 in Hp. rewrite He in Hp. rewrite decide_False in Hp by lia.
    simpl in Hp. discriminate.
Qed.

(** C1: take source descriptors that are all open (repeats and values
    below N allowed), a sync descriptor that is open and not one of them,
    and a table whose open descriptors all lie below RLIMIT_NOFILE. If the
    renumbering phase of lines 133-215 completes, each position i refers to
    the resource that source i referred to, with FD_CLOEXEC clear, and
    every open descriptor at or above N has FD_CLOEXEC set. *)
Theorem renumbering_phase_correct k hs attrs sfd st st' sfd' a :
  (forall v, v ∈ hs -> is_Some (fds st !! v)) ->
  is_Some (fds st !! sfd) -> sfd ∉ hs -> fds_bounded st ->
  renumbering_phase k hs attrs sfd st = COk st' sfd' a ->
  (forall i v, hs !! i = Some v ->
     fd_res <$> fds st' !! i = fd_res <$> fds st !! v /\
     fd_cloexec <$> fds st' !! i = Some false) /\
  (forall fd e, fds st' !! fd = Some e -> length hs <= fd -> fd_cloexec e = true).
Proof.
  intros Hsrc [e He] Hnotin Hb Hrun.
  unfold renumbering_phase in Hrun.
  apply cbind_COk_inv in Hrun as (st1 & sfd1 & [] & Hsh & Hrun).
  apply cbind_COk_inv in Hrun as (st2 & sfd2 & [] & Hse & Hcl).
  apply lift_COk_inv in Hse as [Hse _]. apply lift_COk_inv in Hcl as [Hcl _].
  unfold shuffle_fds in Hsh.
  apply cbind_COk_inv in Hsh as (stp & sfdp & idx & Hp & Hsh).
  apply cbind_COk_inv in Hsh as (stm & sfdm & [t idx'] & Hm & Hpl).
  cbv beta iota in Hpl.
  apply lift_COk_inv in Hm as [Hm _]. apply lift_COk_inv in Hpl as [Hpl _].
  pose proof (protect_sync_limit hs sfd st e _ _ _ He Hb Hp) as Hlim.
  rewrite (protect_sync_spec hs sfd st e He Hlim) in Hp.
  injection Hp as Hstp _ Hidx. subst stp idx.
  set (stp := set_fds _ st) in Hm.
  (* after the relocation *)
  assert (Hsrc_p : forall v, v ∈ hs -> fds stp !! v = fds st !! v).
  { intros v Hv. pose proof (max_fd_ge hs v Hv).
    assert (v <> sfd) by (intros ->; contradiction).
    subst stp. simpl. rewrite lookup_insert_ne by lia.
    rewrite lookup_delete_ne by done. done. }
  assert (Hb_p : fds_bounded stp).
  { intros fd e' Hfd. subst stp. simpl in Hfd |- *.
    destruct (decide (fd = S (max_fd hs))) as [->|Hne]; [done|].
    rewrite lookup_insert_ne in Hfd by done.
    destruct (decide (fd = sfd)) as [->|Hne'].
    - rewrite lookup_delete_eq in Hfd. discriminate.
    - rewrite lookup_delete_ne in Hfd by done. eapply Hb; eauto. }
  (* moving up *)
  destruct (move_up_spec (max_fd hs) hs 0 (S (S (max_fd hs))) stp stm t idx')
    as [H1a _]; try done.
  { intros v Hv. by apply max_fd_ge. }
  { lia. }
  { lia. }
  { intros v Hv. rewrite Hsrc_p by done. auto. }
  pose proof (move_up_length hs 0 _ _ _ _ _ Hm) as Hlen.
  assert (Ht : forall j w, t !! j = Some w -> exists v, hs !! j = Some v /\
             j <= w /\ fd_res <$> fds stm !! w = fd_res <$> fds st !! v).
  { intros j w Hj.
    destruct (lookup_lt_is_Some_2 hs j) as [v Hv].
    { rewrite <- Hlen. apply lookup_lt_is_Some_1. eauto. }
    destruct (H1a j v Hv) as (w' & Hw' & Hr & Hres).
    rewrite Hj in Hw'. injection Hw' as <-.
    exists v. split; [done|]. split; [lia|].
    rewrite Hres, Hsrc_p by (by eapply list_elem_of_lookup_2). done. }
  (* placing *)
  destruct (place_spec t 0 stm st1) as [H2a _]; try done.
  { intros j w Hj. destruct (Ht j w Hj) as (v & _ & Hjw & _). lia. }
  { intros j w Hj. destruct (Ht j w Hj) as (v & Hv & _ & Hres).
    destruct (Hsrc v) as [ev Hev]; [by eapply list_elem_of_lookup_2|].
    rewrite Hev in Hres. destruct (fds stm !! w); [eauto|discriminate]. }
  (* the session calls and the FD_CLOEXEC sweep *)
  assert (Hb2 : fds_bounded st2).
  { eapply (session_bounded k attrs st1 st2 tt); [|exact Hse].
    eapply (place_bounded 0 t stm st1 tt); [|exact Hpl].
    eapply (move_up_bounded 0 hs _ stp stm); [exact Hb_p|exact Hm]. }
  pose proof (session_fds k attrs st1 st2 tt Hse) as Hfds2.
  unfold cloexec_above in Hcl.
  apply bind_Ok_inv in Hcl as (st3 & rl & Hg & Hcl).
  unfold getrlimit_nofile in Hg. injection Hg as <- <-. destruct a.
  destruct (cloexec_from_spec _ _ _ _ Hcl) as (Hr3 & Hf3 & Hc3 & _).
  split.
  - intros i v Hv.
    assert (i < length hs) by (apply lookup_lt_is_Some_1; eauto).
    rewrite Hf3 by lia. rewrite Hfds2.
    destruct (H1a i v Hv) as (w & Hw & _ & Hres).
    destruct (H2a i w Hw) as [Hr Hc]. simpl in Hr, Hc.
    split; [|exact Hc].
    rewrite Hr, Hres, Hsrc_p by (by eapply list_elem_of_lookup_2). done.
  - intros fd e' Hfd Hge. apply (Hc3 fd e' Hfd). split; [lia|].
    specialize (Hr3 fd). rewrite Hfd in Hr3.
    destruct (fds st2 !! fd) as [e2|] eqn:E2; [|discriminate].
    specialize (Hb2 fd e2 E2). lia.
Qed.

End Renumbering.

(** the renumbering of a request [2; 0; 0] (a repeated source, and a
    source below N that belongs to another position) in the child after
    the prologue, sync descriptor on 4 *)
Lemma renumbering_phase_correct_witness :
  match renumbering_phase kernel_ok [2; 0; 0]%nat exec_command_attrs_init 4%nat
          child_after_prologue with
  | COk st' _ _ =>
      (forall i v, [2; 0; 0]%nat !! i = Some v ->
         fd_res <$> fds st' !! i = fd_res <$> fds child_after_prologue !! v /\
         fd_cloexec <$> fds st' !! i = Some false) /\
      (forall fd e, fds st' !! fd = Some e -> (3 <= fd)%nat -> fd_cloexec e = true)
  | CFail _ _ => False
  end.
Proof.
  destruct (renumbering_phase kernel_ok [2; 0; 0]%nat exec_command_attrs_init 4%nat
              child_after_prologue) as [st' sfd' a|st' sfd'] eqn:E.
  - apply (renumbering_phase_correct kernel_ok [2; 0; 0]%nat exec_command_attrs_init
             4%nat child_after_prologue st' sfd' a).
    + apply Forall_forall. repeat constructor; vm_compute; eauto.
    + vm_compute. eauto.
    + apply (bool_decide_unpack _). vm_compute. exact I.
    + change (map_Forall (fun fd _ => (fd < 16)%nat) (fds child_after_prologue)).
      apply (bool_decide_unpack _). vm_compute. exact I.
    + exact E.
  - vm_compute in E. discriminate.
Defined.

(** ** The parent's descriptors and mask on every path *)

Lemma sys_pipe_Fail st st1 : sys_pipe st = Fail st1 -> fds st1 = fds st.
Proof. unfold sys_pipe. cbv zeta. repeat case_match; intros Hfail; simplify_eq; done. Qed.

Lemma sys_pipe_fresh st st1 p0 p1 :
  sys_pipe st = Ok st1 (p0, p1) ->
  p0 <> p1 /\ fds st !! p0 = None /\ fds st !! p1 = None /\
  exists e0 e1, fds st1 = <[p1 := e1]> (<[p0 := e0]> (fds st)).
Proof.
  unfold sys_pipe. cbv zeta.
  destruct (find_free (fds st) (nofile st) 0) as [q0|] eqn:E0; [|done].
  destruct (find_free (<[q0 := mkFd (mkResource (next_res st) false) false]> (fds st))
              (nofile st) 0) as [q1|] eqn:E1; [|done].
  intros H. inversion H; subst; clear H.
  apply find_free_Some in E0. apply find_free_Some in E1.
  assert (p0 <> p1) as Hne.
  { intros ->. rewrite lookup_insert_eq in E1. done. }
  rewrite lookup_insert_ne in E1 by done.
  split; [done|]. split; [done|]. split; [done|]. eauto.
Qed.

(** Whatever fork and read return, exec_command leaves the caller's
    descriptor table as it found it: both ends of the sync pipe are closed
    on every path that created them. *)
Theorem exec_command_keeps_descriptors pk m r exe args envp hs wd attrs st :
  fds (exec_command pk m r exe args envp hs wd attrs st).1.1 = fds st.
Proof.
  unfold exec_command, exec_fail.
  destruct (sys_pipe st) as [st1 [p0 p1]|st1] eqn:Hp; [|simpl; by apply sys_pipe_Fail].
  destruct (sys_pipe_fresh _ _ _ _ Hp) as (Hne & F0 & F1 & e0 & e1 & Hf).
  assert (Hgone : delete p0 (delete p1 (fds st1)) = fds st).
  { rewrite Hf, delete_insert_eq, delete_insert_ne by done.
    rewrite (delete_id (fds st) p1) by done. by apply delete_insert_id. }
  assert (H0 : fds st1 !! p0 = Some e0).
  { rewrite Hf, lookup_insert_ne, lookup_insert_eq by done. done. }
  assert (H1 : fds st1 !! p1 = Some e1).
  { rewrite Hf, lookup_insert_eq. done. }
  destruct (pk_fork pk) as [e|pid].
  - unfold close_ignoring.
    rewrite (sys_close_Some p0 _ e0) by exact H0. cbn [fds set_fds set_errno set_sigmask].
    rewrite (sys_close_Some p1 _ e1) by (cbn; rewrite lookup_delete_ne by done; exact H1).
    cbn. rewrite delete_delete. exact Hgone.
  - rewrite (sys_close_Some p1 _ e1) by exact H1.
    destruct (pk_read pk) as [size v].
    destruct (decide (size = 4)).
    + rewrite (sys_close_Some p0 _ e0) by (cbn; rewrite lookup_delete_ne by done; exact H0).
      repeat case_decide; exact Hgone.
    + rewrite (sys_close_Some p0 _ e0) by (cbn; rewrite lookup_delete_ne by done; exact H0).
      repeat case_decide; exact Hgone.
Qed.

(** Once pipe() has succeeded, every exit of exec_command puts back the
    signal mask the caller had on entry. *)
Theorem exec_command_restores_caller_mask pk m r exe args envp hs wd attrs st st1 p :
  sys_pipe st = Ok st1 p ->
  sigmask (exec_command pk m r exe args envp hs wd attrs st).1.1 = sigmask st.
Proof. apply exec_command_mask_after_pipe. Qed.

Lemma exec_command_restores_caller_mask_witness :
  sys_pipe (proc_stdio 16 0) =
    Ok (set_next_res 3 (set_fds (<[4%nat := mkFd (mkResource 2 true) false]>
          (<[3%nat := mkFd (mkResource 2 false) false]> (fds (proc_stdio 16 0))))
          (proc_stdio 16 0))) (3%nat, 4%nat) /\
  sigmask (exec_command (mkParentKernel (ForkFailed EAGAIN) (0, 0)) sigfillset 0
             "/bin/true" [] [] [] None exec_command_attrs_init (proc_stdio 16 0)).1.1
    = sigmask (proc_stdio 16 0).
Proof.
  split; [reflexivity|].
  eapply (exec_command_restores_caller_mask _ _ _ _ _ _ _ _ _ _ _ (3%nat, 4%nat)).
  reflexivity.
Defined.

(** ** The sync descriptor through the renumbering *)

Section SyncDescriptor.
Local Open Scope nat_scope.

Lemma dup2_frame o n st st' :
  dup2 o n st = Ok st' tt -> forall fd, fd <> n -> fds st' !! fd = fds st !! fd.
Proof.
  unfold dup2. intros Hd fd Hne.
  destruct (fds st !! o); [|discriminate].
  repeat case_decide; try discriminate; injection Hd as <-; [done|].
  cbn. rewrite lookup_insert_ne by done. done.
Qed.

Lemma fcntl_frame fd0 b st st' :
  fcntl_setfd fd0 b st = Ok st' tt -> forall fd, fd <> fd0 -> fds st' !! fd = fds st !! fd.
Proof.
  unfold fcntl_setfd. intros Hf fd Hne.
  destruct (fds st !! fd0); [|discriminate]. injection Hf as <-.
  cbn. rewrite lookup_insert_ne by done. done.
Qed.

(** the placement loop writes positions [i, i + length l) only *)
Lemma place_frame_above l : forall i st st',
  place i l st = Ok st' tt -> forall fd, i + length l <= fd -> fds st' !! fd = fds st !! fd.
Proof.
  induction l as [|w0 rest IH]; intros i st st' Hp fd Hfd; simpl in Hp.
  - unfold mret, M_ret in Hp. inversion Hp; subst. done.
  - apply bind_Ok_inv in Hp as (st1 & [] & Hd & Hp).
    apply bind_Ok_inv in Hp as (st2 & [] & Hf & Hp).
    simpl in Hfd.
    rewrite (IH (S i) st2 st' Hp fd) by lia.
    rewrite (fcntl_frame _ _ _ _ Hf fd) by lia.
    destruct (decide (w0 = i)).
    + unfold mret, M_ret in Hd. injection Hd as <-. done.
    + apply (dup2_frame _ _ _ _ Hd). lia.
Qed.

(** [renumbering_phase_correct]'s argument, also following the sync
    descriptor: it ends on 1 + the highest source and, when no position
    reaches it, still refers to the sync pipe. *)
Lemma renumbering_phase_spec k hs attrs sfd st st' sfd' a e :
  (forall v, v ∈ hs -> is_Some (fds st !! v)) ->
  fds st !! sfd = Some e -> sfd ∉ hs -> fds_bounded st ->
  renumbering_phase k hs attrs sfd st = COk st' sfd' a ->
  (forall i v, hs !! i = Some v ->
     fd_res <$> fds st' !! i = fd_res <$> fds st !! v /\
     fd_cloexec <$> fds st' !! i = Some false) /\
  (forall fd e', fds st' !! fd = Some e' -> length hs <= fd -> fd_cloexec e' = true) /\
  sfd' = S (max_fd hs) /\
  (length hs <= S (max_fd hs) -> fd_res <$> fds st' !! sfd' = Some (fd_res e)).
Proof.
  intros Hsrc He Hnotin Hb Hrun.
  unfold renumbering_phase in Hrun.
  apply cbind_COk_inv in Hrun as (st1 & sfd1 & [] & Hsh & Hrun).
  apply cbind_COk_inv in Hrun as (st2 & sfd2 & [] & Hse & Hcl).
  apply lift_COk_inv in Hse as [Hse Hs2]. apply lift_COk_inv in Hcl as [Hcl Hs3].
  unfold shuffle_fds in Hsh.
  apply cbind_COk_inv in Hsh as (stp & sfdp & idx & Hp & Hsh).
  apply cbind_COk_inv in Hsh as (stm & sfdm & [t idx'] & Hm & Hpl).
  cbv beta iota in Hpl.
  apply lift_COk_inv in Hm as [Hm Hsm]. apply lift_COk_inv in Hpl as [Hpl Hs1].
  pose proof (protect_sync_limit hs sfd st e _ _ _ He Hb Hp) as Hlim.
  rewrite (protect_sync_spec hs sfd st e He Hlim) in Hp.
  injection Hp as Hstp Hsfdp Hidx. subst stp idx sfdp sfdm sfd1 sfd2 sfd'.
  set (stp := set_fds _ st) in Hm.
  assert (Hsrc_p : forall v, v ∈ hs -> fds stp !! v = fds st !! v).
  { intros v Hv. pose proof (max_fd_ge hs v Hv).
    assert (v <> sfd) by (intros ->; contradiction).
    subst stp. simpl. rewrite lookup_insert_ne by lia.
    rewrite lookup_delete_ne by done. done. }
  assert (Hsync_p : fds stp !! S (max_fd hs) = Some (mkFd (fd_res e) true)).
  { subst stp. simpl. rewrite lookup_insert_eq. done. }
  assert (Hb_p : fds_bounded stp).
  { intros fd e' Hfd. subst stp. simpl in Hfd |- *.
    destruct (decide (fd = S (max_fd hs))) as [->|Hne]; [done|].
    rewrite lookup_insert_ne in Hfd by done.
    destruct (decide (fd = sfd)) as [->|Hne'].
    - rewrite lookup_delete_eq in Hfd. discriminate.
    - rewrite lookup_delete_ne in Hfd by done. eapply Hb; eauto. }
  destruct (move_up_spec (max_fd hs) hs 0 (S (S (max_fd hs))) stp stm t idx')
    as [H1a H1b]; try done.
  { intros v Hv. by apply max_fd_ge. }
  { lia. }
  { lia. }
  { intros v Hv. rewrite Hsrc_p by done. auto. }
  pose proof (move_up_length hs 0 _ _ _ _ _ Hm) as Hlen.
  assert (Ht : forall j w, t !! j = Some w -> exists v, hs !! j = Some v /\
             j <= w /\ fd_res <$> fds stm !! w = fd_res <$> fds st !! v).
  { intros j w Hj.
    destruct (lookup_lt_is_Some_2 hs j) as [v Hv].
    { rewrite <- Hlen. apply lookup_lt_is_Some_1. eauto. }
    destruct (H1a j v Hv) as (w' & Hw' & Hr & Hres).
    rewrite Hj in Hw'. injection Hw' as <-.
    exists v. split; [done|]. split; [lia|].
    rewrite Hres, Hsrc_p by (by eapply list_elem_of_lookup_2). done. }
  destruct (place_spec t 0 stm st1) as [H2a _]; try done.
  { intros j w Hj. destruct (Ht j w Hj) as (v & _ & Hjw & _). lia. }
  { intros j w Hj. destruct (Ht j w Hj) as (v & Hv & _ & Hres).
    destruct (Hsrc v) as [ev Hev]; [by eapply list_elem_of_lookup_2|].
    rewrite Hev in Hres. destruct (fds stm !! w); [eauto|discriminate]. }
  assert (Hb2 : fds_bounded st2).
  { eapply (session_bounded k attrs st1 st2 tt); [|exact Hse].
    eapply (place_bounded 0 t stm st1 tt); [|exact Hpl].
    eapply (move_up_bounded 0 hs _ stp stm); [exact Hb_p|exact Hm]. }
  pose proof (session_fds k attrs st1 st2 tt Hse) as Hfds2.
  unfold cloexec_above in Hcl.
  apply bind_Ok_inv in Hcl as (st3 & rl & Hg & Hcl).
  unfold getrlimit_nofile in Hg. injection Hg as <- <-. destruct a.
  destruct (cloexec_from_spec _ _ _ _ Hcl) as (Hr3 & Hf3 & Hc3 & _).
  split; [|split; [|split]].
  - intros i v Hv.
    assert (i < length hs) by (apply lookup_lt_is_Some_1; eauto).
    rewrite Hf3 by lia. rewrite Hfds2.
    destruct (H1a i v Hv) as (w & Hw & _ & Hres).
    destruct (H2a i w Hw) as [Hr Hc]. simpl in Hr, Hc.
    split; [|exact Hc].
    rewrite Hr, Hres, Hsrc_p by (by eapply list_elem_of_lookup_2). done.
  - intros fd e' Hfd Hge. apply (Hc3 fd e' Hfd). split; [lia|].
    specialize (Hr3 fd). rewrite Hfd in Hr3.
    destruct (fds st2 !! fd) as [e2|] eqn:E2; [|discriminate].
    specialize (Hb2 fd e2 E2). lia.
  - done.
  - intros HN. rewrite Hr3, Hfds2.
    rewrite (place_frame_above t 0 stm st1 Hpl) by (simpl; lia).
    rewrite H1b by lia. rewrite Hsync_p. done.
Qed.

(** When no position reaches 1 + the highest source (N <= max + 1), the
    sync descriptor survives the renumbering: it ends on max + 1, refers
    to the sync pipe and is marked FD_CLOEXEC, so a later failure is still
    reported to the parent. *)
Theorem renumbering_phase_sync_survives k hs attrs sfd st st' sfd' a e :
  (forall v, v ∈ hs -> is_Some (fds st !! v)) ->
  fds st !! sfd = Some e -> sfd ∉ hs -> fds_bounded st ->
  length hs <= S (max_fd hs) ->
  renumbering_phase k hs attrs sfd st = COk st' sfd' a ->
  sfd' = S (max_fd hs) /\ fds st' !! sfd' = Some (mkFd (fd_res e) true).
Proof.
  intros Hsrc He Hnotin Hb HN Hrun.
  destruct (renumbering_phase_spec k hs attrs sfd st st' sfd' a e Hsrc He Hnotin Hb Hrun)
    as (_ & Hce & Hsfd & Hres).
  split; [done|].
  specialize (Hres HN).
  destruct (fds st' !! sfd') as [[r c]|] eqn:E; [|discriminate].
  injection Hres as ->.
  assert (c = true) by (apply (Hce sfd' _ E); lia). subst c. done.
Qed.

(** When a position reaches 1 + the highest source (N > max + 1), the
    placement loop overwrites the relocated sync descriptor: the child's
    sync descriptor then refers to the source requested for that position,
    without FD_CLOEXEC, and no longer to the sync pipe. *)
Theorem renumbering_phase_sync_overwritten k hs attrs sfd st st' sfd' a e v :
  (forall v, v ∈ hs -> is_Some (fds st !! v)) ->
  fds st !! sfd = Some e -> sfd ∉ hs -> fds_bounded st ->
  hs !! S (max_fd hs) = Some v ->
  renumbering_phase k hs attrs sfd st = COk st' sfd' a ->
  sfd' = S (max_fd hs) /\
  fd_res <$> fds st' !! sfd' = fd_res <$> fds st !! v /\
  fd_cloexec <$> fds st' !! sfd' = Some false.
Proof.
  intros Hsrc He Hnotin Hb Hv Hrun.
  destruct (renumbering_phase_spec k hs attrs sfd st st' sfd' a e Hsrc He Hnotin Hb Hrun)
    as (Hpos & _ & Hsfd & _).
  subst sfd'. split; [done|]. by apply Hpos.
Qed.

(** If 1 + the highest source is at or above RLIMIT_NOFILE (a source is
    the highest descriptor allowed) and the sync descriptor is not already
    there, the renumbering fails with EBADF at its first dup2, before any
    descriptor is changed, and the sync descriptor is still the original
    one. *)
Theorem renumbering_phase_beyond_limit k hs attrs sfd st e :
  fds st !! sfd = Some e -> sfd <> S (max_fd hs) -> nofile st <= S (max_fd hs) ->
  renumbering_phase k hs attrs sfd st = CFail (set_errno EBADF st) sfd.
Proof.
  intros He Hne Hge.
  unfold renumbering_phase, shuffle_fds, protect_sync, relocate_sync,
    mbind, CM_bind, M_bind, get_syncfd, put_syncfd, lift, mret, CM_ret, M_ret.
  cbv zeta. rewrite decide_False by done.
  unfold dup2. rewrite He. rewrite decide_False by lia. reflexivity.
Qed.

End SyncDescriptor.

(** ** The child from fork to execve *)

Section ChildDescriptors.
Local Open Scope nat_scope.

Lemma child_prologue_fds k r n st st' :
  child_prologue k r n st = Ok st' tt ->
  fds st' = delete r (fds st) /\ nofile st' = nofile st.
Proof.
  unfold child_prologue, alloc_fd_table, sys_close, reset_sig_handlers,
    set_thread_sigmask, mbind, M_bind.
  repeat case_match; intros Hc; simplify_eq/=; auto.
Qed.

Lemma identity_fds k attrs cwd : keeps fds (identity_steps k attrs cwd).
Proof. unfold identity_steps. solve_keeps. Qed.

Lemma execve_fds k exe args env : keeps fds (sys_execve k exe args env).
Proof. unfold sys_execve. solve_keeps. Qed.

Lemma child_body_descriptors k p0 p1 exe args env hs cwd attrs st st' sfd' a e1 :
  (forall v, v ∈ hs -> is_Some (fds st !! v)) ->
  fds st !! p1 = Some e1 -> p0 <> p1 -> p0 ∉ hs -> p1 ∉ hs -> fds_bounded st ->
  child_body k (p0, p1) exe args env hs cwd attrs p1 st = COk st' sfd' a ->
  (forall i v, hs !! i = Some v ->
     fd_res <$> fds st' !! i = fd_res <$> fds st !! v /\
     fd_cloexec <$> fds st' !! i = Some false) /\
  (forall fd e, fds st' !! fd = Some e -> length hs <= fd -> fd_cloexec e = true).
Proof.
  intros Hsrc H1 Hne Hn0 Hn1 Hb Hrun. unfold child_body in Hrun.
  apply cbind_COk_inv in Hrun as (st0 & s0 & [] & Hpro & Hrun).
  apply lift_COk_inv in Hpro as [Hpro ->]. cbn [fst] in Hpro.
  apply cbind_COk_inv in Hrun as (st1 & s1 & [] & Hren & Hrun).
  apply cbind_COk_inv in Hrun as (st2 & s2 & [] & Hid & Hex).
  apply lift_COk_inv in Hid as [Hid _]. apply lift_COk_inv in Hex as [Hex _].
  destruct (child_prologue_fds _ _ _ _ _ Hpro) as [Hf0 Hn].
  assert (Hsrc0 : forall v, v ∈ hs -> fds st0 !! v = fds st !! v).
  { intros v Hv. rewrite Hf0, lookup_delete_ne; [done|]. intros ->. contradiction. }
  destruct (renumbering_phase_spec k hs attrs p1 st0 st1 s1 tt e1)
    as (Hpos & Hce & _); try done.
  { intros v Hv. rewrite Hsrc0 by done. auto. }
  { rewrite Hf0, lookup_delete_ne by done. done. }
  { intros fd e Hfd. rewrite Hf0 in Hfd. rewrite Hn.
    apply lookup_delete_Some in Hfd as [_ Hfd]. eapply Hb; eauto. }
  pose proof (identity_fds k attrs cwd st1 st2 tt Hid) as Hf2.
  pose proof (execve_fds k exe args env st2 st' a Hex) as Hf3.
  split.
  - intros i v Hv. rewrite Hf3, Hf2, <- Hsrc0 by (by eapply list_elem_of_lookup_2).
    by apply Hpos.
  - intros fd e Hfd. rewrite Hf3, Hf2 in Hfd. by apply (Hce fd e).
Qed.

(** A child that reaches execve hands the new program, on each position i
    below N, the resource the parent's descriptor for source i referred to,
    with FD_CLOEXEC clear; every other open descriptor is FD_CLOEXEC and
    closes at execve. Assumed: the sources are open and are neither end of
    the sync pipe, the write end is open, and all open descriptors are
    below RLIMIT_NOFILE. *)
Theorem child_handler_exec_descriptors k fuel p0 p1 exe args env hs cwd om attrs st st' e1 :
  (forall v, v ∈ hs -> is_Some (fds st !! v)) ->
  fds st !! p1 = Some e1 -> p0 <> p1 -> p0 ∉ hs -> p1 ∉ hs -> fds_bounded st ->
  child_handler k fuel (p0, p1) exe args env hs cwd om attrs st = ChildExec st' ->
  (forall i v, hs !! i = Some v ->
     fd_res <$> fds st' !! i = fd_res <$> fds st !! v /\
     fd_cloexec <$> fds st' !! i = Some false) /\
  (forall fd e, fds st' !! fd = Some e -> length hs <= fd -> fd_cloexec e = true).
Proof.
  intros Hsrc H1 Hne Hn0 Hn1 Hb Hrun. unfold child_handler in Hrun. cbn [snd] in Hrun.
  destruct (child_body k (p0, p1) exe args env hs cwd attrs p1 st)
    as [st1 sfd1 a|st1 sfd1] eqn:E;
    [|exfalso; eapply fail_handler_not_exec; eauto].
  injection Hrun as <-.
  eapply child_body_descriptors; eauto.
Qed.

(** When no source refers to the sync pipe, a child that reaches execve
    keeps no descriptor on the sync pipe's write end without FD_CLOEXEC:
    at execve the parent's read on the pipe sees end of file. *)
Theorem child_handler_exec_closes_sync k fuel p0 p1 exe args env hs cwd om attrs st st' e1 :
  (forall v, v ∈ hs -> is_Some (fds st !! v)) ->
  (forall v e, v ∈ hs -> fds st !! v = Some e -> fd_res e <> fd_res e1) ->
  fds st !! p1 = Some e1 -> p0 <> p1 -> p0 ∉ hs -> p1 ∉ hs -> fds_bounded st ->
  child_handler k fuel (p0, p1) exe args env hs cwd om attrs st = ChildExec st' ->
  forall fd e, fds st' !! fd = Some e -> fd_res e = fd_res e1 -> fd_cloexec e = true.
Proof.
  intros Hsrc Hdiff H1 Hne Hn0 Hn1 Hb Hrun fd e Hfd Hres.
  unfold child_handler in Hrun. cbn [snd] in Hrun.
  destruct (child_body k (p0, p1) exe args env hs cwd attrs p1 st)
    as [st1 sfd1 a|st1 sfd1] eqn:E;
    [|exfalso; eapply fail_handler_not_exec; eauto].
  injection Hrun as <-.
  destruct (child_body_descriptors k p0 p1 exe args env hs cwd attrs st st1 sfd1 a e1)
    as [Hpos Hce]; try done.
  destruct (decide (fd < length hs)) as [Hlt|Hge]; [|apply (Hce fd e Hfd); lia].
  destruct (lookup_lt_is_Some_2 hs fd Hlt) as [v Hv].
  destruct (Hpos fd v Hv) as [Hr _]. rewrite Hfd in Hr.
  destruct (fds st !! v) as [ev|] eqn:Ev; [|discriminate].
  injection Hr as Hr. exfalso.
  apply (Hdiff v ev); [by eapply list_elem_of_lookup_2|done|congruence].
Qed.

End ChildDescriptors.

(** ** The fail label and the FD_CLOEXEC sweep *)

Lemma write_retry_Some fuel fd v st st' :
  write_retry fuel fd v st = Some st' ->
  exists e, fds st !! fd = Some e /\ res_writable (fd_res e) = true /\
            st' = add_written (res_id (fd_res e), v) st.
Proof.
  revert st. induction fuel as [|fuel IH]; intros st Hw; [discriminate|].
  cbn [write_retry] in Hw. unfold sys_write in Hw.
  destruct (fds st !! fd) as [e|] eqn:E.
  - destruct (res_writable (fd_res e)) eqn:W.
    + rewrite decide_False in Hw by lia. injection Hw as <-. eauto.
    + destruct (IH _ Hw) as (e' & E' & W' & _). cbn in E'. congruence.
  - destruct (IH _ Hw) as (e' & E' & _). cbn in E'. congruence.
Qed.

(** Every exit through the fail label has status 127 and has freed
    fd_table; it leaves the descriptors alone, and it reports exactly one
    4-byte error code, errno, on the sync descriptor when errno is non-zero
    (which then refers to a writable description), and nothing when errno
    is zero. *)
Theorem fail_handler_reports_errno fuel sfd st status st' :
  fail_handler fuel sfd st = ChildExit status st' ->
  status = 127 /\ heap_fd_table st' = false /\ fds st' = fds st /\
  (errno st = 0 -> written st' = written st) /\
  (errno st <> 0 -> exists e, fds st !! sfd = Some e /\
     res_writable (fd_res e) = true /\
     written st' = (res_id (fd_res e), errno st) :: written st).
Proof.
  unfold fail_handler.
  set (st1 := if heap_fd_table st then set_heap false st else st).
  assert (Hs : errno st1 = errno st /\ fds st1 = fds st /\
               written st1 = written st /\ heap_fd_table st1 = false).
  { subst st1. destruct (heap_fd_table st) eqn:Hh; auto. }
  destruct Hs as (He & Hf & Hw & Hh).
  case_decide as Hnz.
  - destruct (write_retry fuel sfd (errno st1) st1) as [st2|] eqn:W; [|discriminate].
    intros Hx. injection Hx as <- <-.
    apply write_retry_Some in W as (e & Hfd & Hwr & ->).
    cbn. rewrite He in *. split; [done|]. split; [done|]. split; [done|].
    split; [intros; contradiction|].
    intros _. exists e. rewrite <- Hf, <- Hw. done.
  - intros Hx. injection Hx as <- <-. rewrite He in Hnz.
    split; [done|]. split; [done|]. split; [done|].
    split; [done|]. intros. contradiction.
Qed.

Lemma fcntl_cloexec_or_ebadf_ok fd st :
  exists st', fcntl_cloexec_or_ebadf fd st = Ok st' tt.
Proof.
  unfold fcntl_cloexec_or_ebadf, fcntl_setfd.
  destruct (fds st !! fd); [eauto|].
  cbv beta iota. rewrite decide_True by done. eauto.
Qed.

Lemma cloexec_from_ok c : forall i st, exists st', cloexec_from c i st = Ok st' tt.
Proof.
  induction c as [|c IH]; intros i st; [eexists; reflexivity|].
  cbn [cloexec_from]. destruct (fcntl_cloexec_or_ebadf_ok i st) as [st1 H1].
  destruct (IH (S i) st1) as [st2 H2].
  exists st2. unfold mbind, M_bind. rewrite H1. exact H2.
Qed.

(** The FD_CLOEXEC sweep of lines 206-215 never fails, since a descriptor
    that is not open only gives EBADF; it opens, closes or redirects no
    descriptor, leaves those below N as they were, and marks every open
    descriptor from N up to RLIMIT_NOFILE FD_CLOEXEC. *)
Theorem cloexec_above_never_fails N st :
  exists st', cloexec_above N st = Ok st' tt /\
  (forall fd, fd_res <$> fds st' !! fd = fd_res <$> fds st !! fd) /\
  (forall fd, (fd < N)%nat -> fds st' !! fd = fds st !! fd) /\
  (forall fd e, fds st' !! fd = Some e -> (N <= fd <= nofile st)%nat -> fd_cloexec e = true).
Proof.
  destruct (cloexec_from_ok (S (nofile st) - N) N st) as [st' Hc].
  exists st'. split.
  { unfold cloexec_above, mbind, M_bind, getrlimit_nofile. exact Hc. }
  destruct (cloexec_from_spec _ _ _ _ Hc) as (Hr & Hf & Hce & _).
  split; [done|]. split.
  - intros fd Hfd. apply Hf. lia.
  - intros fd e Hfd Hrange. apply (Hce fd e Hfd). lia.
Qed.

(** ** The default attributes *)

(** With the attributes exec_command_attrs_init sets, the child makes no
    setsid, setpgid, TIOCSCTTY, setgid or setreuid call, whatever those
    calls would return: uid and gid hold (uid_t)-1, which lines 218 and 225
    compare equal to -1. Only the chdir of line 232 remains. *)
Theorem exec_command_attrs_init_no_id_calls k cwd st :
  session_steps k exec_command_attrs_init st = Ok st tt /\
  identity_steps k exec_command_attrs_init cwd st =
    match cwd with
    | Some d => sys_outcome (k_chdir k) (set_cwd d) st
    | None => Ok st tt
    end.
Proof.
  unfold session_steps, identity_steps.
  rewrite !decide_False by (cbn; intros Hn; apply Hn; reflexivity).
  unfold mbind, M_bind, mret, M_ret. split; [done|]. destruct cwd; reflexivity.
Qed.

(** ** Concrete runs *)

Lemma child_start_bounded : fds_bounded child_start.
Proof.
  change (map_Forall (fun fd _ => (fd < 16)%nat) (fds child_start)).
  apply (bool_decide_unpack _). vm_compute. exact I.
Qed.

Lemma child_after_prologue_bounded : fds_bounded child_after_prologue.
Proof.
  change (map_Forall (fun fd _ => (fd < 16)%nat) (fds child_after_prologue)).
  apply (bool_decide_unpack _). vm_compute. exact I.
Qed.

(** requests [2; 1; 0]: N = 3 = max + 1, the sync pipe stays on 3 *)
Lemma renumbering_phase_sync_survives_witness :
  match renumbering_phase kernel_ok [2; 1; 0]%nat exec_command_attrs_init 4%nat
          child_after_prologue with
  | COk st' sfd' _ => sfd' = 3%nat /\ fds st' !! sfd' = Some (mkFd pipe_w true)
  | CFail _ _ => False
  end.
Proof.
  destruct (renumbering_phase kernel_ok [2; 1; 0]%nat exec_command_attrs_init 4%nat
              child_after_prologue) as [st' sfd' a|st' sfd'] eqn:E.
  - apply (renumbering_phase_sync_survives kernel_ok [2; 1; 0]%nat exec_command_attrs_init
             4%nat child_after_prologue st' sfd' a (mkFd pipe_w false)).
    + apply Forall_forall. repeat constructor; vm_compute; eauto.
    + reflexivity.
    + apply (bool_decide_unpack _). vm_compute. exact I.
    + exact child_after_prologue_bounded.
    + vm_compute. lia.
    + exact E.
  - vm_compute in E. discriminate.
Defined.

(** requests [0; 0; 0]: the sync pipe is moved to 1, which position 1
    then overwrites with the resource of descriptor 0 *)
Lemma renumbering_phase_sync_overwritten_witness :
  match renumbering_phase kernel_ok [0; 0; 0]%nat exec_command_attrs_init 4%nat
          child_after_prologue with
  | COk st' sfd' _ =>
      sfd' = 1%nat /\ fd_res <$> fds st' !! sfd' = Some devnull_ro /\
      fd_cloexec <$> fds st' !! sfd' = Some false
  | CFail _ _ => False
  end.
Proof.
  destruct (renumbering_phase kernel_ok [0; 0; 0]%nat exec_command_attrs_init 4%nat
              child_after_prologue) as [st' sfd' a|st' sfd'] eqn:E.
  - apply (renumbering_phase_sync_overwritten kernel_ok [0; 0; 0]%nat exec_command_attrs_init
             4%nat child_after_prologue st' sfd' a (mkFd pipe_w false) 0%nat).
    + apply Forall_forall. repeat constructor; vm_compute; eauto.
    + reflexivity.
    + apply (bool_decide_unpack _). vm_compute. exact I.
    + exact child_after_prologue_bounded.
    + reflexivity.
    + exact E.
  - vm_compute in E. discriminate.
Defined.

(** a request for descriptor 15 under RLIMIT_NOFILE 16 *)
Lemma renumbering_phase_beyond_limit_witness :
  renumbering_phase kernel_ok [15]%nat exec_command_attrs_init 4%nat child_after_prologue =
  CFail (set_errno EBADF child_after_prologue) 4%nat.
Proof.
  apply (renumbering_phase_beyond_limit _ _ _ _ _ (mkFd pipe_w false));
    [reflexivity | vm_compute; lia | vm_compute; lia].
Defined.

(** the child of the example of lines 94-131, requests [2; 1; 0] *)
Lemma child_handler_exec_descriptors_witness :
  match child_handler kernel_ok 1 (3%nat, 4%nat) "/bin/true" [] [] [2; 1; 0]%nat None
          sigfillset exec_command_attrs_init child_start with
  | ChildExec st' =>
      (forall i v, [2; 1; 0]%nat !! i = Some v ->
         fd_res <$> fds st' !! i = fd_res <$> fds child_start !! v /\
         fd_cloexec <$> fds st' !! i = Some false) /\
      (forall fd e, fds st' !! fd = Some e -> (3 <= fd)%nat -> fd_cloexec e = true)
  | _ => False
  end.
Proof.
  destruct (child_handler kernel_ok 1 (3%nat, 4%nat) "/bin/true" [] [] [2; 1; 0]%nat None
              sigfillset exec_command_attrs_init child_start) as [st'| |] eqn:E;
    [|vm_compute in E; discriminate|vm_compute in E; discriminate].
  apply (child_handler_exec_descriptors kernel_ok 1 3%nat 4%nat "/bin/true" [] []
           [2; 1; 0]%nat None sigfillset exec_command_attrs_init child_start st'
           (mkFd pipe_w false)).
  - apply Forall_forall. repeat constructor; vm_compute; eauto.
  - reflexivity.
  - lia.
  - apply (bool_decide_unpack _). vm_compute. exact I.
  - apply (bool_decide_unpack _). vm_compute. exact I.
  - exact child_start_bounded.
  - exact E.
Defined.

Lemma child_handler_exec_closes_sync_witness :
  match child_handler kernel_ok 1 (3%nat, 4%nat) "/bin/true" [] [] [2; 1; 0]%nat None
          sigfillset exec_command_attrs_init child_start with
  | ChildExec st' =>
      forall fd e, fds st' !! fd = Some e -> fd_res e = pipe_w -> fd_cloexec e = true
  | _ => False
  end.
Proof.
  destruct (child_handler kernel_ok 1 (3%nat, 4%nat) "/bin/true" [] [] [2; 1; 0]%nat None
              sigfillset exec_command_attrs_init child_start) as [st'| |] eqn:E;
    [|vm_compute in E; discriminate|vm_compute in E; discriminate].
  apply (child_handler_exec_closes_sync kernel_ok 1 3%nat 4%nat "/bin/true" [] []
           [2; 1; 0]%nat None sigfillset exec_command_attrs_init child_start st'
           (mkFd pipe_w false)).
  - apply Forall_forall. repeat constructor; vm_compute; eauto.
  - intros v e Hv He.
    apply elem_of_cons in Hv as [->|Hv];
      [|apply elem_of_cons in Hv as [->|Hv];
        [|apply elem_of_cons in Hv as [->|Hv]; [|by apply elem_of_nil in Hv]]];
      vm_compute in He; injection He as <-; vm_compute; discriminate.
  - reflexivity.
  - lia.
  - apply (bool_decide_unpack _). vm_compute. exact I.
  - apply (bool_decide_unpack _). vm_compute. exact I.
  - exact child_start_bounded.
  - exact E.
Defined.

(** chdir failed with ENOENT; the sync pipe is on 4 *)
Lemma fail_handler_reports_errno_witness :
  match fail_handler 1 4%nat (set_errno ENOENT child_after_prologue) with
  | ChildExit status st' =>
      status = 127 /\ heap_fd_table st' = false /\ written st' = [(2%nat, ENOENT)]
  | _ => False
  end.
Proof.
  destruct (fail_handler 1 4%nat (set_errno ENOENT child_after_prologue))
    as [st'|status st'|] eqn:E; [vm_compute in E; discriminate| |vm_compute in E; discriminate].
  destruct (fail_handler_reports_errno 1 4%nat (set_errno ENOENT child_after_prologue)
              status st' E) as (Hs & Hh & _ & _ & Hw).
  destruct (Hw ltac:(vm_compute; discriminate)) as (e & He & _ & Hwr).
  vm_compute in He. injection He as <-.
  split; [exact Hs|]. split; [exact Hh|]. rewrite Hwr. reflexivity.
Defined.
